(** * confluence-md: the conversion engine, embedded and verified

    A shallow embedding of the Confluence storage-format to Markdown
    converter ([internal/converter], [internal/converter/plugin],
    [internal/confluence/model]) together with the properties its
    specification states about it.

    Conventions of the embedding.
    - A Go [string] is the sequence of its runes: [gostring] is [list N],
      each element a Unicode code point.  ASCII literals are written
      [str "..."]; other literals are spelled out by code point.
    - A [strings.Builder] / [converter.Writer] threaded through a handler
      is the string the handler appends to it.
    - [*html.Node] is the tree [Node]; the [Parent]/[NextSibling] links are
      the position in the children list.
    - Third-party packages (html-to-markdown's renderer, [html.Render],
      goquery, [slug], [net/url]) and the network are parameters. *)

From Stdlib Require Import List Ascii String NArith ZArith Lia Bool DecimalString.
From stdpp Require Import gmap.
Import ListNotations.

Set Implicit Arguments.
Set Warnings "-register-all".
Local Open Scope N_scope.

(* ================================================================== *)
(** * Part I. Definitions                                               *)
(* ================================================================== *)

(** ** Go strings *)

Module GoString.

Abbreviation rune := N (only parsing).
Abbreviation gostring := (list N) (only parsing).

(** ASCII literal. *)
Fixpoint str (s : string) : gostring :=
  match s with
  | EmptyString => []
  | String a t => N_of_ascii a :: str t
  end.

Definition eqs (a b : gostring) : bool := bool_decide (a = b).

(** [unicode.IsSpace]. *)
Definition isSpace (r : rune) : bool :=
  match r with
  | 9 | 10 | 11 | 12 | 13 | 32 => true
  | 0x85 | 0xA0 | 0x1680 | 0x2028 | 0x2029 | 0x202F | 0x205F | 0x3000 => true
  | _ => (0x2000 <=? r) && (r <=? 0x200A)
  end.

Fixpoint dropWhile (p : rune -> bool) (s : gostring) : gostring :=
  match s with
  | [] => []
  | c :: t => if p c then dropWhile p t else s
  end.

(** [strings.TrimLeftFunc], [strings.TrimRightFunc], [strings.TrimSpace]. *)
Definition trimLeftFunc (p : rune -> bool) (s : gostring) : gostring :=
  dropWhile p s.
Definition trimRightFunc (p : rune -> bool) (s : gostring) : gostring :=
  rev (dropWhile p (rev s)).
Definition TrimSpace (s : gostring) : gostring :=
  trimRightFunc isSpace (trimLeftFunc isSpace s).

(** [strings.TrimRight(s, cutset)]. *)
Definition TrimRight (s cutset : gostring) : gostring :=
  trimRightFunc (fun c => existsb (N.eqb c) cutset) s.

(** [strings.TrimSuffix(s, suffix)] for a one-rune suffix. *)
Definition TrimSuffix1 (s : gostring) (c : rune) : gostring :=
  match rev s with
  | x :: t => if x =? c then rev t else s
  | [] => s
  end.

(** [strings.Split(s, sep)] for a one-rune separator. *)
Fixpoint Split (s : gostring) (sep : rune) : list gostring :=
  match s with
  | [] => [[]]
  | c :: t =>
      if c =? sep then [] :: Split t sep
      else match Split t sep with
           | l :: ls => (c :: l) :: ls
           | [] => [[c]]
           end
  end.

(** [strings.Join]. *)
Fixpoint Join (l : list gostring) (sep : gostring) : gostring :=
  match l with
  | [] => []
  | [x] => x
  | x :: rest => x ++ sep ++ Join rest sep
  end.

(** [strings.Fields]: the maximal runs of non-space runes.  [cur] is the
    field being read, most recent rune first. *)
Fixpoint fieldsFrom (cur : gostring) (s : gostring) : list gostring :=
  match s with
  | [] => match cur with [] => [] | _ => [rev cur] end
  | c :: t =>
      if isSpace c
      then match cur with
           | [] => fieldsFrom [] t
           | _ => rev cur :: fieldsFrom [] t
           end
      else fieldsFrom (c :: cur) t
  end.
Definition Fields (s : gostring) : list gostring := fieldsFrom [] s.

Definition itoaZ (z : Z) : gostring :=
  str (NilZero.string_of_int (Z.to_int z)).

(** [strings.HasPrefix], returning the text after the prefix. *)
Fixpoint stripPrefix (pre s : gostring) : option gostring :=
  match pre, s with
  | [], _ => Some s
  | p :: pre', c :: s' => if p =? c then stripPrefix pre' s' else None
  | _ :: _, [] => None
  end.

(** The text after the first occurrence of [sub] ([strings.Index]). *)
Fixpoint afterFirst (sub s : gostring) : option gostring :=
  match stripPrefix sub s with
  | Some rest => Some rest
  | None => match s with
            | [] => None
            | _ :: t => afterFirst sub t
            end
  end.

(** [strings.ReplaceAll(s, old, new)] for a non-empty [old]: successive
    non-overlapping occurrences from the left.  [skip] counts the runes of
    the current occurrence still to be passed over. *)
Fixpoint replaceSub (old new : gostring) (skip : nat) (s : gostring) : gostring :=
  match s with
  | [] => []
  | x :: t =>
      match skip with
      | S n => replaceSub old new n t
      | O =>
          match stripPrefix old s with
          | Some _ => new ++ replaceSub old new (Nat.pred (length old)) t
          | None => x :: replaceSub old new O t
          end
      end
  end.
Definition ReplaceAll (s old new : gostring) : gostring := replaceSub old new O s.

(** [strings.Repeat]. *)
Fixpoint Repeat (s : gostring) (count : nat) : gostring :=
  match count with
  | O => []
  | S n => s ++ Repeat s n
  end.

(** [strings.ToLower] on the ASCII range (the comparisons made with its
    result are against ASCII words without [i], [k] or [s], the only
    letters a non-ASCII rune lower-cases to). *)
Definition toLowerRune (c : rune) : rune :=
  if (65 <=? c) && (c <=? 90) then c + 32 else c.
Definition ToLower (s : gostring) : gostring := map toLowerRune s.

(** [%d] for a non-negative integer. *)
Definition itoa (n : nat) : gostring :=
  str (NilZero.string_of_uint (Nat.to_uint n)).

(** The text before the first occurrence of rune [c], and the text after it. *)
Fixpoint cutAt (c : rune) (s : gostring) : option (gostring * gostring) :=
  match s with
  | [] => None
  | x :: t =>
      if x =? c then Some ([], t)
      else match cutAt c t with
           | Some (a, b) => Some (x :: a, b)
           | None => None
           end
  end.

End GoString.
Export GoString.

(** ** Regular expressions: the fragment of [regexp] the converter uses

    Leftmost-first (Perl-like) matching, as [regexp.MustCompile] gives:
    alternatives are tried in order, a greedy repetition tries the longest
    run first and a lazy one the shortest.  Every repetition in the
    converter's patterns is over a single character class. *)

Module Regexp.

Inductive regex : Type :=
| REmpty
| RChar (p : rune -> bool)
| RRep (greedy : bool) (p : rune -> bool) (min : nat)
| RSeq (r1 r2 : regex)
| RAlt (r1 r2 : regex)
| RGroup (i : nat) (r : regex).

(** Submatches, by group number; a group that did not take part is empty. *)
Definition caps := nat -> gostring.
Definition nocaps : caps := fun _ => [].
Definition setcap (i : nat) (v : gostring) (c : caps) : caps :=
  fun j => if Nat.eqb j i then v else c j.

Section Matcher.
Context {A : Type}.

(** [p{min,}], longest first. *)
Fixpoint repGreedy (p : rune -> bool) (min : nat) (s : gostring)
    (k : gostring -> option A) : option A :=
  let stop := match min with O => k s | S _ => None end in
  match s with
  | [] => stop
  | c :: t =>
      if p c
      then match repGreedy p (Nat.pred min) t k with
           | Some v => Some v
           | None => stop
           end
      else stop
  end.

(** [p{min,}?], shortest first. *)
Fixpoint repLazy (p : rune -> bool) (min : nat) (s : gostring)
    (k : gostring -> option A) : option A :=
  let more := match s with
              | [] => None
              | c :: t => if p c then repLazy p (Nat.pred min) t k else None
              end in
  match min with
  | O => match k s with
         | Some v => Some v
         | None => more
         end
  | S _ => more
  end.

(** Backtracking matcher in continuation-passing style: [k] receives the
    unread rest of the input and the submatches so far. *)
Fixpoint run (r : regex) (s : gostring) (c : caps)
    (k : gostring -> caps -> option A) : option A :=
  match r with
  | REmpty => k s c
  | RChar p => match s with
               | x :: t => if p x then k t c else None
               | [] => None
               end
  | RRep true p min => repGreedy p min s (fun t => k t c)
  | RRep false p min => repLazy p min s (fun t => k t c)
  | RSeq r1 r2 => run r1 s c (fun t c' => run r2 t c' k)
  | RAlt r1 r2 => match run r1 s c k with
                  | Some v => Some v
                  | None => run r2 s c k
                  end
  | RGroup i r1 =>
      run r1 s c (fun t c' =>
        k t (setcap i (firstn (length s - length t) s) c'))
  end.
End Matcher.

(** A match anchored at the start of [s]: the unread rest and the submatches. *)
Definition matchAt (r : regex) (s : gostring) : option (gostring * caps) :=
  run r s nocaps (fun t c => Some (t, c)).

(** The leftmost match in [s]: the matched text and the submatches
    ([FindStringSubmatch]). *)
Fixpoint findFirst (r : regex) (s : gostring) : option (gostring * caps) :=
  match matchAt r s with
  | Some (rest, c) => Some (firstn (length s - length rest) s, c)
  | None => match s with
            | [] => None
            | _ :: t => findFirst r t
            end
  end.

(** [ReplaceAllStringFunc]-style scan: successive non-overlapping leftmost
    matches, each replaced by [f match submatches].  [skip] counts the runes
    of the current match still to be passed over.  The patterns of the
    converter never match the empty string; an empty match leaves the text
    as it is. *)
Fixpoint replaceFrom (r : regex) (f : gostring -> caps -> gostring)
    (skip : nat) (s : gostring) : gostring :=
  match s with
  | [] => []
  | x :: t =>
      match skip with
      | S n => replaceFrom r f n t
      | O =>
          match matchAt r s with
          | Some (rest, c) =>
              match (length s - length rest)%nat with
              | O => x :: replaceFrom r f O t
              | S m => f (firstn (S m) s) c ++ replaceFrom r f m t
              end
          | None => x :: replaceFrom r f O t
          end
      end
  end.

(** Replacement templates: literal text and [$n] references. *)
Inductive titem : Type :=
| TLit (s : gostring)
| TRef (i : nat).

Definition expand (tmpl : list titem) (c : caps) : gostring :=
  flat_map (fun it => match it with TLit s => s | TRef i => c i end) tmpl.

(** [re.ReplaceAllString(s, tmpl)]. *)
Definition ReplaceAllString (r : regex) (s : gostring) (tmpl : list titem)
  : gostring :=
  replaceFrom r (fun _ c => expand tmpl c) O s.

(** [re.ReplaceAllStringFunc(s, f)]. *)
Definition ReplaceAllStringFunc (r : regex) (s : gostring)
    (f : gostring -> gostring) : gostring :=
  replaceFrom r (fun m _ => f m) O s.

(** [re.FindAllString(s, -1)]. *)
Fixpoint findAllFrom (r : regex) (skip : nat) (s : gostring) : list gostring :=
  match s with
  | [] => []
  | _ :: t =>
      match skip with
      | S n => findAllFrom r n t
      | O =>
          match matchAt r s with
          | Some (rest, _) =>
              match (length s - length rest)%nat with
              | O => findAllFrom r O t
              | S m => firstn (S m) s :: findAllFrom r m t
              end
          | None => findAllFrom r O t
          end
      end
  end.
Definition FindAllString (r : regex) (s : gostring) : list gostring :=
  findAllFrom r O s.

(** Pattern building blocks. *)
Definition chr (c : rune) : rune -> bool := N.eqb c.
Definition isnot (c : rune) : rune -> bool := fun x => negb (x =? c).
Definition anyRune : rune -> bool := fun _ => true.
(** [\s] is [[\t\n\f\r ]] and [\d] is [[0-9]] in Go's syntax. *)
Definition cls_s (x : rune) : bool :=
  match x with 9 | 10 | 12 | 13 | 32 => true | _ => false end.
Definition cls_d (x : rune) : bool := (48 <=? x) && (x <=? 57).

Fixpoint rseq (l : list regex) : regex :=
  match l with
  | [] => REmpty
  | [r] => r
  | r :: rest => RSeq r (rseq rest)
  end.

Definition lit (s : string) : regex := rseq (map (fun c => RChar (chr c)) (str s)).

Definition star (p : rune -> bool) : regex := RRep true p 0.
Definition plus (p : rune -> bool) : regex := RRep true p 1.

(** Patterns without groups, and the least number of runes a match takes. *)
Fixpoint groupFree (r : regex) : bool :=
  match r with
  | RGroup _ _ => false
  | RSeq r1 r2 | RAlt r1 r2 => groupFree r1 && groupFree r2
  | _ => true
  end.

Fixpoint minLen (r : regex) : nat :=
  match r with
  | REmpty => 0
  | RChar _ => 1
  | RRep _ _ min => min
  | RSeq r1 r2 => minLen r1 + minLen r2
  | RAlt r1 r2 => Nat.min (minLen r1) (minLen r2)
  | RGroup _ r1 => minLen r1
  end.

End Regexp.
Export Regexp.

(** ** Post-processing of the rendered Markdown ([converter] package) *)

Module Postprocess.

Definition nl : rune := 10.

(** [\n{3,}] *)
Definition reNewlines : regex := RRep true (chr nl) 3.

(** The list marker: either [[-*+]\s] or [\d+\.\s]. *)
Definition listMarker : regex :=
  RAlt (RSeq (RChar (fun x => (x =? 45) || (x =? 42) || (x =? 43))) (RChar cls_s))
       (rseq [plus cls_d; RChar (chr 46); RChar cls_s]).

(** The pattern of [fixNestedListSpacing], its parts spaced out, with [M]
    for the list marker:  ( \n \s* M [^\n]* ) \n \s* \n ( \s{2,} M )  *)
Definition reNestedList : regex :=
  rseq [ RGroup 1 (rseq [RChar (chr nl); star cls_s; listMarker; star (isnot nl)]);
         RChar (chr nl); star cls_s; RChar (chr nl);
         RGroup 2 (rseq [RRep true cls_s 2; listMarker]) ].

(** The pattern of [fixMarkdownLinks], its parts spaced out:
    \[ ( [^\]]+ ) \] \(/wiki/spaces/ ( [^/]+ ) /pages/ ( \d+ ) / [^)]+ \)  *)
Definition reConfLink : regex :=
  rseq [ RChar (chr 91); RGroup 1 (plus (isnot 93)); RChar (chr 93);
         lit "(/wiki/spaces/"; RGroup 2 (plus (isnot 47));
         lit "/pages/"; RGroup 3 (plus cls_d); RChar (chr 47);
         plus (isnot 41); RChar (chr 41) ].

(** The pattern of [preprocessCDATA], its parts spaced out:
    <!\[CDATA\[ ( [\s\S]*? ) \]\]>  *)
Definition reCDATA : regex :=
  rseq [ lit "<![CDATA["; RGroup 1 (RRep false anyRune 0); lit "]]>" ].

(** One pass of the nested-list rewrite: ["$1\n$2"]. *)
Definition nestedListPass (markdown : gostring) : gostring :=
  ReplaceAllString reNestedList markdown [TRef 1; TLit [nl]; TRef 2].

(** [fixNestedListSpacing] calls itself while a pass changes the text.
    [fuel] bounds the number of further calls. *)
Fixpoint fixNestedListSpacingFuel (fuel : nat) (markdown : gostring) : gostring :=
  let result := nestedListPass markdown in
  if negb (eqs result markdown)
  then match fuel with
       | O => result
       | S n => fixNestedListSpacingFuel n result
       end
  else result.

Definition fixNestedListSpacing (markdown : gostring) : gostring :=
  fixNestedListSpacingFuel (length markdown) markdown.

Definition fixMarkdownLinks (markdown : gostring) : gostring :=
  ReplaceAllString reConfLink markdown
    [TLit (str "["); TRef 1; TLit (str "](confluence://pageId/"); TRef 3;
     TLit (str ")")].

Definition collapseNewlines (markdown : gostring) : gostring :=
  ReplaceAllString reNewlines markdown [TLit [nl; nl]].

Definition postprocessMarkdown (markdown : gostring) : gostring :=
  let markdown := collapseNewlines markdown in
  let markdown := fixNestedListSpacing markdown in
  let markdown := fixMarkdownLinks markdown in
  TrimSpace markdown.

Definition escapeCDATA (content : gostring) : gostring :=
  let content := ReplaceAll content (str "&") (str "&amp;") in
  let content := ReplaceAll content (str "<") (str "&lt;") in
  ReplaceAll content (str ">") (str "&gt;").

Definition preprocessCDATA (html : gostring) : gostring :=
  ReplaceAllStringFunc reCDATA html (fun m =>
    match findFirst reCDATA m with
    | Some (_, submatch) =>
        str "<pre data-cdata='true'>" ++ escapeCDATA (submatch 1%nat)
          ++ str "</pre>"
    | None => m
    end).

End Postprocess.
Export Postprocess.

(** ** The parsed markup tree ([golang.org/x/net/html]) *)

Module Html.

Record Attribute : Type := { Key : gostring; Val : gostring }.

Inductive Node : Type :=
| TextNode (data : gostring)
| ElementNode (data : gostring) (attr : list Attribute) (children : list Node)
| CommentNode (data : gostring).

(** [n.Data]: the text of a text node, the tag of an element. *)
Definition Data (n : Node) : gostring :=
  match n with
  | TextNode d | ElementNode d _ _ | CommentNode d => d
  end.

Definition Attr (n : Node) : list Attribute :=
  match n with
  | ElementNode _ a _ => a
  | _ => []
  end.

Definition Children (n : Node) : list Node :=
  match n with
  | ElementNode _ _ cs => cs
  | _ => []
  end.

(** [n.Type == html.ElementNode && n.Data == tag] *)
Definition isElement (tag : string) (n : Node) : bool :=
  match n with
  | ElementNode d _ _ => eqs d (str tag)
  | _ => false
  end.

(** [switch tag { case a, b, c: ... }] *)
Definition tagIn (tag : gostring) (names : list string) : bool :=
  existsb (fun nm => eqs tag (str nm)) names.

(** [for _, attr := range n.Attr { if attr.Key == key { v = attr.Val; break } }],
    with [v] initially empty. *)
Fixpoint attrVal (key : string) (attrs : list Attribute) : gostring :=
  match attrs with
  | [] => []
  | a :: rest => if eqs (Key a) (str key) then Val a else attrVal key rest
  end.

(** The value of the first attribute named [key] whose value is not empty. *)
Fixpoint attrNonEmpty (key : string) (attrs : list Attribute) : option gostring :=
  match attrs with
  | [] => None
  | a :: rest =>
      if eqs (Key a) (str key) && negb (eqs (Val a) [])
      then Some (Val a)
      else attrNonEmpty key rest
  end.

End Html.
Export Html.

(** ** The Confluence page model ([internal/confluence/model]) *)

Module Model.

Definition error := gostring.

Record User : Type := {
  AccountID : gostring;
  DisplayName : gostring
}.

Record ConfluenceAttachment : Type := {
  att_ID : gostring;
  att_Title : gostring;
  MediaType : gostring;
  FileSize : Z;
  DownloadLink : gostring
}.

Record ConfluencePage : Type := {
  ID : gostring;
  Title : gostring;
  SpaceKey : gostring;
  StorageValue : gostring;      (* Content.Storage.Value *)
  Attachments : list ConfluenceAttachment;
  CreatedBy : User;
  UpdatedBy : User
}.

(** What [client.GetUser] returns. *)
Record ConfluenceUser : Type := {
  cu_DisplayName : gostring;
  cu_PublicName : gostring
}.

Section Validate.
(** The error of [url.Parse(link)], if any. *)
Variable urlParseError : gostring -> option error.

Definition Attachment_Validate (ca : ConfluenceAttachment) : option error :=
  if eqs (att_ID ca) [] then Some (str "attachment ID cannot be empty")
  else if eqs (att_Title ca) [] then Some (str "attachment title cannot be empty")
  else if eqs (MediaType ca) [] then
    Some (str "attachment media type cannot be empty")
  else if (FileSize ca <=? 0)%Z then
    Some (str "attachment file size must be greater than 0")
  else if eqs (DownloadLink ca) [] then
    Some (str "attachment download link cannot be empty")
  else match urlParseError (DownloadLink ca) with
       | Some err => Some (str "invalid download link: " ++ err)
       | None => None
       end.

Fixpoint validateAttachments (i : nat) (l : list ConfluenceAttachment)
  : option error :=
  match l with
  | [] => None
  | a :: rest =>
      match Attachment_Validate a with
      | Some err =>
          Some (str "invalid attachment at index " ++ itoa i ++ str ": " ++ err)
      | None => validateAttachments (S i) rest
      end
  end.

Definition Validate (cp : ConfluencePage) : option error :=
  if eqs (ID cp) [] then Some (str "page ID cannot be empty")
  else if eqs (Title cp) [] then Some (str "page title cannot be empty")
  else if eqs (StorageValue cp) [] then Some (str "page content cannot be empty")
  else if eqs (SpaceKey cp) [] then Some (str "space key cannot be empty")
  else validateAttachments 0 (Attachments cp).
End Validate.

End Model.
Export Model.

(** ** The Confluence plugin ([internal/converter/plugin]) *)

Module Plugin.

Inductive RenderStatus : Type := RenderSuccess | RenderTryNext.

(** The packages the plugin calls into.  The goquery fields stand for the
    queries the handlers make on the document obtained by rendering the
    node with [html.Render] and parsing it again; parsing from a string
    reader reports no error, so the handlers' branches for a parse error
    are left out. *)
Record External : Type := {
  (** [ctx.RenderNodes(ctx, w, n)]: the library's Markdown for one node *)
  RenderNodes : Node -> gostring;
  (** [html.Render(w, n)] *)
  htmlRender : Node -> gostring;
  (** [slug.Make] *)
  slugMake : gostring -> gostring;
  (** [ParseConfluenceImage], [extractLanguageParameter] and
      [extractCodeContent] of the plugin package *)
  ParseConfluenceImage : gostring -> gostring;
  extractLanguageParameter : gostring -> gostring;
  extractCodeContent : gostring -> gostring;
  (** [selection.Html()] *)
  gqHtml : Node -> gostring;
  (** text of the first [pre[data-cdata='true']] in the first
      [ac:plain-text-body], when both exist *)
  gqCDATAPre : Node -> option gostring;
  (** text of the first [ac:parameter] with the given [ac:name], if any *)
  gqParameter : Node -> gostring -> option gostring;
  (** [Find("ac\\:plain-text-body").First().Text()] *)
  gqPlainTextBody : Node -> gostring;
  (** [doc.Find("ri\\:attachment").Attr("ri:filename")] *)
  gqAttachmentFilename : Node -> option gostring;
  (** [doc.Text()] *)
  gqText : Node -> gostring;
  (** [doc.Find("ac\\:link").Attr("ac:anchor")] *)
  gqLinkAnchor : Node -> option gostring;
  (** [selection.Find("ac\\:plain-text-link-body").Text()] *)
  gqLinkBody : Node -> gostring
}.

(** [confluence.Client], as far as the plugin uses it: [GetUser], with
    [None] for an error. *)
Definition Client := gostring -> option ConfluenceUser.

Record ConfluencePlugin : Type := {
  imageFolder : gostring;
  client : option Client;
  currentPage : option ConfluencePage;
  baseURL : gostring;
  userCache : gmap (list N) (list N)    (* accountID -> displayName *)
}.

Definition NewConfluencePlugin (imageFolder : gostring) : ConfluencePlugin :=
  {| imageFolder := imageFolder; client := None; currentPage := None;
     baseURL := []; userCache := ∅ |}.

Definition NewConfluencePluginWithClient (c : Client) (imageFolder : gostring)
  : ConfluencePlugin :=
  {| imageFolder := imageFolder; client := Some c; currentPage := None;
     baseURL := []; userCache := ∅ |}.

Definition withCache (p : ConfluencePlugin) (m : gmap (list N) (list N))
  : ConfluencePlugin :=
  {| imageFolder := imageFolder p; client := client p;
     currentPage := currentPage p; baseURL := baseURL p; userCache := m |}.

Definition SetBaseURL (p : ConfluencePlugin) (url : gostring) : ConfluencePlugin :=
  {| imageFolder := imageFolder p; client := client p;
     currentPage := currentPage p; baseURL := url; userCache := userCache p |}.

(** [ExtractUserAccountIDs]: the quoted values that follow [ri:account-id=]
    in the text.  The Go function collects them in a map and
    returns its keys in no particular order; here they come in order of
    first occurrence.  [fuel] bounds the number of attributes. *)
Definition accountIdKey : gostring := str "ri:account-id=" ++ [34].

Fixpoint extractIDsFuel (fuel : nat) (html : gostring) (seen : list gostring)
  : list gostring :=
  match fuel with
  | O => seen
  | S n =>
      match afterFirst accountIdKey html with
      | None => seen
      | Some rest =>
          match cutAt 34 rest with
          | None => seen
          | Some (accountID, rest') =>
              extractIDsFuel n rest'
                (if eqs accountID [] || existsb (eqs accountID) seen
                 then seen else seen ++ [accountID])
          end
      end
  end.

Definition ExtractUserAccountIDs (html : gostring) : list gostring :=
  extractIDsFuel (length html) html [].

(** The loop of [extractAndCacheUsers], run when a client is present. *)
Fixpoint cacheUsers (c : Client) (ids : list gostring)
    (cache : gmap (list N) (list N)) : gmap (list N) (list N) :=
  match ids with
  | [] => cache
  | accountID :: rest =>
      match cache !! accountID with
      | Some _ => cacheUsers c rest cache
      | None =>
          match c accountID with
          | None => cacheUsers c rest cache
          | Some user =>
              if negb (eqs (cu_DisplayName user) [])
              then cacheUsers c rest (<[accountID := cu_DisplayName user]> cache)
              else if negb (eqs (cu_PublicName user) [])
              then cacheUsers c rest (<[accountID := cu_PublicName user]> cache)
              else cacheUsers c rest cache
          end
      end
  end.

Definition extractAndCacheUsers (p : ConfluencePlugin) (page : ConfluencePage)
  : ConfluencePlugin :=
  match client p with
  | Some c => withCache p (cacheUsers c (ExtractUserAccountIDs (StorageValue page))
                                      (userCache p))
  | None => p
  end.

Definition cacheUser (u : User) (cache : gmap (list N) (list N))
  : gmap (list N) (list N) :=
  if negb (eqs (AccountID u) []) && negb (eqs (DisplayName u) [])
  then <[AccountID u := DisplayName u]> cache
  else cache.

(** [SetCurrentPage] for a non-nil page. *)
Definition SetCurrentPage (p : ConfluencePlugin) (page : ConfluencePage)
  : ConfluencePlugin :=
  let p1 :=
    {| imageFolder := imageFolder p; client := client p;
       currentPage := Some page; baseURL := baseURL p;
       userCache := cacheUser (UpdatedBy page)
                      (cacheUser (CreatedBy page) (userCache p)) |} in
  extractAndCacheUsers p1 page.

End Plugin.
Export Plugin.

(** ** Node handlers of the plugin

    A handler [h(ctx, w, n)] is the pair of what it writes to [w] and the
    status it returns. *)

Module Handlers.

(** The literals of the source that are not ASCII, by code point. *)
Definition emojiInfo : gostring := [0x201A; 0xD1; 0x3C0; 0xD4; 0x220F; 0xE8].
Definition emojiWarning : gostring := [0x201A; 0xF6; 0x2020; 0xD4; 0x220F; 0xE8].
Definition emojiNote : gostring := [0xF8FF; 0xFC; 0xEC; 0xF9].
Definition emojiTip : gostring := [0xF8FF; 0xFC; 0xED; 0xB0].
Definition emojiRed : gostring := [0xF8FF; 0xFC; 0xEE; 0xA5].
Definition emojiYellow : gostring := [0xF8FF; 0xFC; 0xFC; 0xB0].
Definition emojiGreen : gostring := [0xF8FF; 0xFC; 0xFC; 0xA2].
Definition emojiBlue : gostring := [0xF8FF; 0xFC; 0xEE; 0xB5].
Definition emojiGrey : gostring := [0x201A; 0xF6; 0x2122].
Definition bulletMark : gostring := [0x201A; 0xC4; 0xA2; 32].
Definition boxComplete : gostring := [0x201A; 0xF2; 0xEB; 32].
Definition boxIncomplete : gostring := [0x201A; 0xF2; 0xEA; 32].

Section WithPlugin.
Variable ext : External.
Variable p : ConfluencePlugin.

Definition handleImage (n : Node) : gostring * RenderStatus :=
  let filename := attrVal "ri:filename" (Attr n) in
  let filename :=
    if eqs filename [] then ParseConfluenceImage ext (htmlRender ext n)
    else filename in
  if eqs filename [] then (str "<!-- Image attachment not found -->", RenderSuccess)
  else
    let localPath := imageFolder p ++ str "/" ++ filename in
    (str "![" ++ filename ++ str "](" ++ localPath ++ str ")", RenderSuccess).

Definition handleEmoticon (n : Node) : gostring * RenderStatus :=
  match attrNonEmpty "ac:emoji-fallback" (Attr n) with
  | Some v => (v ++ str " ", RenderTryNext)
  | None =>
      match attrNonEmpty "ac:emoji-shortname" (Attr n) with
      | Some v => (v ++ str " ", RenderTryNext)
      | None =>
          match attrNonEmpty "ac:name" (Attr n) with
          | Some v => (str ":" ++ v ++ str ":", RenderTryNext)
          | None => (str ":emoji: ", RenderTryNext)
          end
      end
  end.

(** [findRichTextBodyNode]: the first [ac:rich-text-body] element in
    document order, the node itself included. *)
Fixpoint findRichTextBodyNode (n : Node) : option Node :=
  match n with
  | ElementNode tag _ cs =>
      if eqs tag (str "ac:rich-text-body") then Some n
      else (fix search (cs : list Node) : option Node :=
              match cs with
              | [] => None
              | child :: rest =>
                  match findRichTextBodyNode child with
                  | Some found => Some found
                  | None => search rest
                  end
              end) cs
  | _ => None
  end.

(** The loop of [convertNestedHTML] over the children of the rich body. *)
Fixpoint convertChildren (cs : list Node) : gostring :=
  match cs with
  | [] => []
  | child :: rest =>
      (match child with
       | TextNode d => TrimSpace d
       | ElementNode tag _ gcs =>
           if eqs tag (str "p") && match gcs with [] => true | _ => false end
           then []
           else RenderNodes ext child
       | CommentNode _ => []
       end) ++ convertChildren rest
  end.

Definition convertNestedHTML (n : Node) : gostring :=
  match findRichTextBodyNode n with
  | None => []
  | Some richTextBody => TrimSpace (convertChildren (Children richTextBody))
  end.

(** The loop of [handleBlockquoteMacro] over the lines of the body. *)
Fixpoint quoteLines (lines : list gostring) : gostring :=
  match lines with
  | [] => []
  | line :: rest =>
      (if negb (eqs (TrimSpace line) [])
       then str "> " ++ line ++ [nl]
       else str ">" ++ [nl]) ++ quoteLines rest
  end.

Definition handleBlockquoteMacro (n : Node) (emoji : gostring) (label : string)
  : gostring :=
  let content := convertNestedHTML n in
  let prefix := emoji ++ str " **" ++ str label ++ str ":**" in
  if eqs content [] then str "> " ++ prefix
  else
    let lines := Split content nl in
    if (1 <? length lines)%nat
    then TrimRight (str "> " ++ prefix ++ [nl] ++ quoteLines lines) [nl]
    else str "> " ++ prefix ++ str " " ++ content.

Definition extractPlainTextBodyContent (n : Node) (rawHTML : gostring) : gostring :=
  match gqCDATAPre ext n with
  | Some content =>
      let content := ReplaceAll content (str "&lt;") (str "<") in
      let content := ReplaceAll content (str "&gt;") (str ">") in
      let content := ReplaceAll content (str "&amp;") (str "&") in
      TrimSpace content
  | None => extractCodeContent ext rawHTML
  end.

Definition handleCodeMacro (n : Node) : gostring :=
  let rawHTML := gqHtml ext n in
  let language := extractLanguageParameter ext rawHTML in
  let code := extractPlainTextBodyContent n rawHTML in
  let code := if eqs code [] then extractCodeContent ext rawHTML else code in
  if negb (eqs language [])
  then str "```" ++ language ++ [nl] ++ code ++ [nl] ++ str "```" ++ [nl]
  else str "```" ++ [nl] ++ code ++ [nl] ++ str "```" ++ [nl].

Definition extractMacroParameter (n : Node) (name : string) : gostring :=
  match gqParameter ext n (str name) with
  | None => []
  | Some text => TrimSpace text
  end.

(** [strings.Replace(s, "confluence", "jira", 1)] *)
Fixpoint replaceFirstConfluence (s : gostring) : gostring :=
  match stripPrefix (str "confluence") s with
  | Some rest => str "jira" ++ rest
  | None => match s with
            | [] => []
            | x :: t => x :: replaceFirstConfluence t
            end
  end.

Definition handleJiraMacro (n : Node) : gostring :=
  let jira := extractMacroParameter n "key" in
  if negb (eqs (baseURL p) [])
  then str "[" ++ jira ++ str "](" ++ replaceFirstConfluence (baseURL p)
         ++ str "/browse/" ++ jira ++ str ")"
  else jira.

Definition handleMermaidMacro (n : Node) : gostring :=
  let diagram := TrimSpace (gqPlainTextBody ext n) in
  if eqs diagram [] then str "<!-- Empty mermaid macro -->"
  else str "```mermaid" ++ [nl] ++ diagram ++ [nl] ++ str "```" ++ [nl].

Definition handleViewFileMacro (n : Node) : gostring :=
  match gqAttachmentFilename ext n with
  | Some filename =>
      str "[" ++ filename ++ str "](" ++ imageFolder p ++ str "/" ++ filename
        ++ str ")"
  | None => str "<!-- file attachment not found -->"
  end.

Definition handleAnchorMacro (n : Node) : gostring :=
  let anchor := gqText ext n in
  if eqs anchor [] then str "<!-- anchor macro has no anchor -->"
  else str "<a name=" ++ slugMake ext anchor ++ str "></a>".

Definition handleTocMacro (n : Node) : gostring * bool :=
  let hasParameters := existsb (isElement "ac:parameter") (Children n) in
  if negb hasParameters then (str "[toc]", true) else (str "[toc]", false).

Definition handleExpandMacro (n : Node) : gostring :=
  let content := convertNestedHTML n in
  if negb (eqs content []) then content ++ [nl; nl] else [].

Definition handleDetailsMacro (n : Node) : gostring :=
  let content := convertNestedHTML n in
  if eqs content [] then [] else content ++ [nl; nl].

(** The parameter loop of [handleStatusMacro]. *)
Fixpoint statusParams (cs : list Node) (title colour : gostring)
  : gostring * gostring :=
  match cs with
  | [] => (title, colour)
  | child :: rest =>
      if isElement "ac:parameter" child
      then
        let paramName := attrVal "ac:name" (Attr child) in
        match Children child with
        | first :: _ =>
            if eqs paramName (str "title") then statusParams rest (Data first) colour
            else if eqs paramName (str "colour")
            then statusParams rest title (Data first)
            else statusParams rest title colour
        | [] => statusParams rest title colour
        end
      else statusParams rest title colour
  end.

Definition handleStatusMacro (n : Node) : gostring :=
  let '(title, colour) := statusParams (Children n) [] [] in
  let colour := ToLower colour in
  let emoji :=
    if eqs colour (str "red") then emojiRed
    else if eqs colour (str "yellow") then emojiYellow
    else if eqs colour (str "green") then emojiGreen
    else if eqs colour (str "blue") then emojiBlue
    else if tagIn colour ["grey"; "gray"]%string then emojiGrey
    else [] in
  if negb (eqs title [])
  then if negb (eqs emoji [])
       then emoji ++ str " **" ++ title ++ str "**"
       else str "**[" ++ title ++ str "]**"
  else [].

(** The name [handleMacro] dispatches on: the first [ac:name] attribute,
    or ["unknown"] when that is missing or empty. *)
Definition macroName (n : Node) : gostring :=
  let name := attrVal "ac:name" (Attr n) in
  if eqs name [] then str "unknown" else name.

Definition knownMacros : list string :=
  ["info"; "warning"; "note"; "tip"; "code"; "noformat"; "mermaid-macro";
   "expand"; "toc"; "details"; "status"; "children"; "jira"; "view-file";
   "anchor"]%string.

(** [case nm:] of the [switch macroName]. *)
Definition named (macroName : gostring) (nm : string) : bool :=
  eqs macroName (str nm).

Definition handleMacro (n : Node) : gostring * RenderStatus :=
  let name := macroName n in
  let '(result, tryNext) :=
    if named name "info" then (handleBlockquoteMacro n emojiInfo "Info", false)
    else if named name "warning" then (handleBlockquoteMacro n emojiWarning "Warning", false)
    else if named name "note" then (handleBlockquoteMacro n emojiNote "Note", false)
    else if named name "tip" then (handleBlockquoteMacro n emojiTip "Tip", false)
    else if named name "code" then (handleCodeMacro n, false)
    else if named name "noformat" then (handleCodeMacro n, false)
    else if named name "mermaid-macro" then (handleMermaidMacro n, false)
    else if named name "expand" then (handleExpandMacro n, false)
    else if named name "toc" then handleTocMacro n
    else if named name "details" then (handleDetailsMacro n, false)
    else if named name "status" then (handleStatusMacro n, false)
    else if named name "children" then (str "<!-- Child Pages -->", false)
    else if named name "jira" then (handleJiraMacro n, false)
    else if named name "view-file" then (handleViewFileMacro n, false)
    else if named name "anchor" then (handleAnchorMacro n, false)
    else (str "<!-- Unsupported macro: " ++ name ++ str " -->", false) in
  (result, if tryNext then RenderTryNext else RenderSuccess).

Definition handleAnchorLink (n : Node) : gostring * RenderStatus :=
  match gqLinkAnchor ext n with
  | Some anchor =>
      let linkText := TrimSpace (gqLinkBody ext n) in
      if eqs linkText [] then ([], RenderTryNext)
      else (str "[" ++ linkText ++ str "](#" ++ slugMake ext anchor ++ str ")",
            RenderSuccess)
  | None => ([], RenderTryNext)
  end.

(** The loop of [handleLink] over the children: the account id of the
    first [ri:user] child that carries a non-empty one. *)
Fixpoint mentionedAccount (cs : list Node) : option gostring :=
  match cs with
  | [] => None
  | child :: rest =>
      if isElement "ri:user" child
      then let accountID := attrVal "ri:account-id" (Attr child) in
           if negb (eqs accountID []) then Some accountID
           else mentionedAccount rest
      else mentionedAccount rest
  end.

Definition handleLink (n : Node) : gostring * RenderStatus :=
  let '(anchorOut, status) := handleAnchorLink n in
  match status with
  | RenderSuccess => (anchorOut, RenderSuccess)
  | RenderTryNext =>
      match mentionedAccount (Children n) with
      | Some accountID =>
          match userCache p !! accountID with
          | Some displayName =>
              (anchorOut ++ str " @" ++ displayName ++ str " ", RenderTryNext)
          | None =>
              (anchorOut ++ str " @user(" ++ accountID ++ str ") ", RenderTryNext)
          end
      | None => (anchorOut, RenderTryNext)
      end
  end.

Definition firstChildText (n : Node) : gostring :=
  match Children n with
  | TextNode d :: _ => d
  | _ => []
  end.

Definition handleInlineComment (n : Node) : gostring * RenderStatus :=
  let text := firstChildText n in
  let ref := attrVal "ac:ref" (Attr n) in
  (text ++ (if negb (eqs ref []) then str "<!-- comment-ref: " ++ ref ++ str " -->"
            else []),
   RenderSuccess).

Definition handlePlaceholder (n : Node) : gostring * RenderStatus :=
  let text := TrimSpace (firstChildText n) in
  (if negb (eqs text []) then str "<!-- " ++ text ++ str " -->" else [],
   RenderSuccess).

Definition handleTime (n : Node) : gostring * RenderStatus :=
  let datetime := attrVal "datetime" (Attr n) in
  (if negb (eqs datetime []) then datetime ++ str " " else [], RenderTryNext).

End WithPlugin.

End Handlers.
Export Handlers.

(** ** The table flattening engine *)

Module Tables.

Definition blockTags : list string :=
  ["ul"; "ol"; "div"; "blockquote"; "pre"; "table"; "ac:task-list"]%string.
Definition headingTags : list string :=
  ["h1"; "h2"; "h3"; "h4"; "h5"; "h6"]%string.

(** [containsBrTags]: the node or one of its descendants is a [br] element. *)
Fixpoint containsBrTags (n : Node) : bool :=
  match n with
  | ElementNode tag _ cs =>
      if eqs tag (str "br") then true
      else (fix anyChild (cs : list Node) : bool :=
              match cs with
              | [] => false
              | child :: rest =>
                  if containsBrTags child then true else anyChild rest
              end) cs
  | _ => false
  end.

(** The loop of [cellHasComplexContent] over the children of the cell. *)
Fixpoint complexFrom (cs : list Node) (blockElementCount : nat) : bool :=
  match cs with
  | [] => false
  | child :: rest =>
      match child with
      | ElementNode tag _ _ =>
          if tagIn tag blockTags then true
          else if tagIn tag ("p" :: headingTags)%string then
            let blockElementCount := S blockElementCount in
            if (1 <? blockElementCount)%nat then true
            else if containsBrTags child then true
            else complexFrom rest blockElementCount
          else if eqs tag (str "br") then true
          else complexFrom rest blockElementCount
      | _ => complexFrom rest blockElementCount
      end
  end.

Definition cellHasComplexContent (cell : Node) : bool :=
  complexFrom (Children cell) 0.

Section WithPlugin.
Variable ext : External.
Variable p : ConfluencePlugin.

(** The four mutually recursive flatteners.  Each walks the children of
    its node; what the Go code appends to the builder is what they return. *)
Fixpoint flattenCellContent (n : Node) {struct n} : gostring :=
  match n with
  | ElementNode _ _ cs =>
      (fix each (cs : list Node) : gostring :=
         match cs with
         | [] => []
         | child :: rest =>
             (match child with
              | TextNode text => text
              | ElementNode tag _ gcs =>
                  if tagIn tag headingTags then
                    str "<strong>" ++ flattenCellContent child ++ str "</strong>"
                  else if eqs tag (str "br") then str "<br>"
                  else if eqs tag (str "p") then
                    match gcs with
                    | [] => []
                    | _ :: _ =>
                        flattenCellContent child
                          ++ match rest with [] => [] | _ :: _ => str " " end
                    end
                  else if eqs tag (str "ul") then
                    flattenListContentWithDepth child false 0
                  else if eqs tag (str "ol") then
                    flattenListContentWithDepth child true 0
                  else if eqs tag (str "ac:task-list") then flattenTaskList child
                  else if tagIn tag ["strong"; "b"; "em"; "i"; "code"; "a"]%string
                  then htmlRender ext child
                  else if eqs tag (str "ac:structured-macro") then
                    fst (handleMacro ext p child)
                  else if eqs tag (str "ac:emoticon") then
                    fst (handleEmoticon child) ++ flattenCellContent child
                  else if eqs tag (str "ac:link") then fst (handleLink ext p child)
                  else if eqs tag (str "time") then
                    fst (handleTime child) ++ flattenCellContent child
                  else if eqs tag (str "ac:inline-comment-marker") then
                    flattenCellContent child
                  else if eqs tag (str "ac:placeholder") then
                    fst (handlePlaceholder child)
                  else flattenCellContent child
              | CommentNode _ => []
              end) ++ each rest
         end) cs
  | _ => []
  end

with flattenListContentWithDepth (listNode : Node) (ordered : bool) (depth : nat)
    {struct listNode} : gostring :=
  str "<br>" ++
  match listNode with
  | ElementNode _ _ cs =>
      (fix items (cs : list Node) (index : nat) : gostring :=
         match cs with
         | [] => []
         | li :: rest =>
             if isElement "li" li then
               Repeat (str "&nbsp;&nbsp;") depth
                 ++ (if ordered then itoa index ++ str ". " else bulletMark)
                 ++ flattenListItemContent li depth
                 ++ str "<br>"
                 ++ items rest (if ordered then S index else index)
             else items rest index
         end) cs 1%nat
  | _ => []
  end

with flattenListItemContent (li : Node) (depth : nat) {struct li} : gostring :=
  match li with
  | ElementNode _ _ cs =>
      (fix each (cs : list Node) : gostring :=
         match cs with
         | [] => []
         | child :: rest =>
             (match child with
              | TextNode text => text
              | ElementNode tag _ gcs =>
                  if eqs tag (str "ul") then
                    flattenListContentWithDepth child false (S depth)
                  else if eqs tag (str "ol") then
                    flattenListContentWithDepth child true (S depth)
                  else if eqs tag (str "p") then
                    match gcs with
                    | [] => []
                    | _ :: _ => flattenCellContent child
                    end
                  else flattenCellContent child
              | CommentNode _ => []
              end) ++ each rest
         end) cs
  | _ => []
  end

with flattenTaskList (taskListNode : Node) {struct taskListNode} : gostring :=
  str "<br>" ++
  match taskListNode with
  | ElementNode _ _ cs =>
      (fix tasks (cs : list Node) : gostring :=
         match cs with
         | [] => []
         | task :: rest =>
             match task with
             | ElementNode tag _ tcs =>
                 if eqs tag (str "ac:task") then
                   let '(status, body) :=
                     (fix parts (tcs : list Node) (status body : gostring)
                        : gostring * gostring :=
                        match tcs with
                        | [] => (status, body)
                        | child :: more =>
                            match child with
                            | ElementNode ctag _ ccs =>
                                match eqs ctag (str "ac:task-status"), ccs with
                                | true, first :: _ => parts more (Data first) body
                                | _, _ =>
                                    if eqs ctag (str "ac:task-body")
                                    then parts more status (flattenCellContent child)
                                    else parts more status body
                                end
                            | _ => parts more status body
                            end
                        end) tcs (str "incomplete") [] in
                   (if eqs status (str "complete") then boxComplete
                    else boxIncomplete)
                     ++ body ++ str "<br>" ++ tasks rest
                 else tasks rest
             | _ => tasks rest
             end
         end) cs
  | _ => []
  end.

Definition flattenListContent (listNode : Node) (ordered : bool) : gostring :=
  flattenListContentWithDepth listNode ordered 0.

Definition getCellHTMLContent (cell : Node) : gostring :=
  let content := flattenCellContent cell in
  let content := ReplaceAll content [nl] (str " ") in
  let content := ReplaceAll content [13] [] in
  Join (Fields content) (str " ").

(** The first child that is not a text node of white space only. *)
Fixpoint firstNonBlank (cs : list Node) : option Node :=
  match cs with
  | [] => None
  | TextNode d :: rest =>
      if eqs (TrimSpace d) [] then firstNonBlank rest else Some (TextNode d)
  | child :: _ => Some child
  end.

(** The text [handleTable] puts in the table for one [td] or [th]. *)
Definition cellText (cell : Node) : gostring :=
  let cellContent :=
    if cellHasComplexContent cell then getCellHTMLContent cell
    else TrimSpace (match firstNonBlank (Children cell) with
                    | Some firstChild => RenderNodes ext firstChild
                    | None => []
                    end) in
  if eqs cellContent [] || eqs cellContent (str "&nbsp;") then str " "
  else cellContent.

(** The loop of [handleTable] over the children of one [tr], with its
    three variables. *)
Fixpoint rowLoop (cs : list Node) (row : list gostring)
    (hasOnlyHeaders hasSomeTd : bool) : list gostring * bool * bool :=
  match cs with
  | [] => (row, hasOnlyHeaders, hasSomeTd)
  | cell :: rest =>
      match cell with
      | ElementNode tag _ _ =>
          let '(hasOnlyHeaders, hasSomeTd) :=
            if eqs tag (str "td") then (false, true)
            else (hasOnlyHeaders, hasSomeTd) in
          if eqs tag (str "td") || eqs tag (str "th")
          then rowLoop rest (row ++ [cellText cell]) hasOnlyHeaders hasSomeTd
          else rowLoop rest row hasOnlyHeaders hasSomeTd
      | _ => rowLoop rest row hasOnlyHeaders hasSomeTd
      end
  end.

Definition scanRow (tr : Node) : list gostring * bool * bool :=
  rowLoop (Children tr) [] true false.

(** One [tr]: the texts of its cells. *)
Definition rowCells (tr : Node) : list gostring := fst (fst (scanRow tr)).

(** One [tr]: [hasOnlyHeaders && !hasSomeTd] after the loop. *)
Definition rowIsHeader (tr : Node) : bool :=
  let '(_, hasOnlyHeaders, hasSomeTd) := scanRow tr in
  hasOnlyHeaders && negb hasSomeTd.

(** The loop over the children of [tbody]: the rows with at least one
    cell, each with its header flag. *)
Fixpoint collectRows (trs : list Node) : list (list gostring * bool) :=
  match trs with
  | [] => []
  | tr :: rest =>
      if isElement "tr" tr then
        match rowCells tr with
        | [] => collectRows rest
        | row => (row, rowIsHeader tr) :: collectRows rest
        end
      else collectRows rest
  end.

Definition maxCols (rows : list (list gostring)) : nat :=
  fold_left (fun m row => if (m <? length row)%nat then length row else m) rows 0%nat.

(** [for len(rows[i]) < maxCols { rows[i] = append(rows[i], " ") }] *)
Definition padRow (maxCols : nat) (row : list gostring) : list gostring :=
  row ++ repeat (str " ") (maxCols - length row).

(** What the writing loop emits, line by line. *)
Inductive Line : Type :=
| RowLine (cells : list gostring)
| SeparatorLine (cols : nat).

Fixpoint emitFrom (i : nat) (rows : list (list gostring)) (isHeaderRow0 : bool)
    (hasHeaderRow : bool) (maxCols : nat) : list Line :=
  match rows with
  | [] => []
  | row :: rest =>
      RowLine row ::
      (if (Nat.eqb i 0 && isHeaderRow0) || (Nat.eqb i 0 && negb hasHeaderRow)
       then [SeparatorLine maxCols] else [])
      ++ emitFrom (S i) rest isHeaderRow0 hasHeaderRow maxCols
  end.

Definition tableLines (collected : list (list gostring * bool)) : list Line :=
  let rows := map fst collected in
  let isHeaderRow := map snd collected in
  let maxCols := maxCols rows in
  let rows := map (padRow maxCols) rows in
  let hasHeaderRow := existsb (fun b => b) isHeaderRow in
  emitFrom 0 rows (hd false isHeaderRow) hasHeaderRow maxCols.

Definition writeLine (l : Line) : gostring :=
  match l with
  | RowLine row => str "| " ++ Join row (str " | ") ++ str " |" ++ [nl]
  | SeparatorLine cols => str "|" ++ Repeat (str "---|") cols ++ [nl]
  end.

Definition findTbody (n : Node) : option Node :=
  find (isElement "tbody") (Children n).

(** [handleTable]: [None] stands for [RenderTryNext] with nothing written. *)
Definition tableRows (n : Node) : option (list (list gostring * bool)) :=
  match findTbody n with
  | None => None
  | Some tbody =>
      match collectRows (Children tbody) with
      | [] => None
      | collected => Some collected
      end
  end.

Definition handleTable (n : Node) : gostring * RenderStatus :=
  match tableRows n with
  | None => ([], RenderTryNext)
  | Some collected =>
      (flat_map writeLine (tableLines collected) ++ [nl], RenderSuccess)
  end.

End WithPlugin.

End Tables.
Export Tables.

(** ** The converter ([internal/converter]) *)

Module Converter.

(** Modelled from the spec: the image reference of the converter's [model]
    package, "{origin locator, file name} ... later enriched with
    {content-type, byte size}". *)
Record ImageRef : Type := {
  OriginalURL : gostring;
  FileName : gostring;
  ContentType : gostring;
  Size : Z
}.

(** Modelled from the spec: the Markdown document of the converter's
    [model] package, with the fields [ConvertPage] reads and writes. *)
Record MarkdownDocument : Type := {
  PageID : gostring;          (* Frontmatter.Confluence.PageID *)
  Content : gostring;
  Images : list ImageRef
}.

(** [attachments.Resolver]: [DownloadAttachment(page, name, 0)]. *)
Definition Resolver :=
  ConfluencePage -> gostring -> error + (ConfluenceAttachment * list N).

(** What the converter calls outside the repository's sources. *)
Record Library : Type := {
  (** [c.mdConverter.ConvertString], which runs the plugin's handlers *)
  ConvertString : ConfluencePlugin -> gostring -> gostring * option error;
  (** [model.NewMarkdownDocument] *)
  NewMarkdownDocument : ConfluencePage -> gostring -> error + MarkdownDocument;
  (** [url.QueryEscape], [url.Parse] *)
  QueryEscape : gostring -> gostring;
  urlParseError : gostring -> option error;
  (** [filepath.Join(outputDir, imageFolder, name)], [filepath.Dir] *)
  filepathJoin : gostring -> gostring -> gostring -> gostring;
  filepathDir : gostring -> gostring;
  (** [os.MkdirAll], [os.WriteFile] *)
  MkdirAll : gostring -> option error;
  WriteFile : gostring -> list N -> option error
}.

Record Converter : Type := {
  plugin : ConfluencePlugin;
  attachments : option Resolver;
  conv_imageFolder : gostring
}.

(** [NewConverter(client, WithDownloadAttachments(imageFolder))]; [service]
    is [attachments.NewService(client)]. *)
Definition NewConverter (client : option Client) (service : Client -> Resolver)
    (imageFolder : gostring) : Converter :=
  match client with
  | Some cl =>
      {| plugin := NewConfluencePluginWithClient cl imageFolder;
         attachments := if negb (eqs imageFolder []) then Some (service cl)
                        else None;
         conv_imageFolder := imageFolder |}
  | None =>
      {| plugin := NewConfluencePlugin imageFolder;
         attachments := None;
         conv_imageFolder := imageFolder |}
  end.

Definition maxImageSizeBytes : Z := 50 * 1024 * 1024.

(** The pattern of [extractImageReferences], its parts spaced out, with
    [Q] for the double quote:  <ri:attachment [^>]* ( ri:filename=Q [^Q]+ ) Q  *)
Definition reAttachment : regex :=
  rseq [ lit "<ri:attachment"; star (isnot 62);
         RGroup 1 (rseq [lit "ri:filename="; RChar (chr 34); plus (isnot 34)]);
         RChar (chr 34) ].

Section WithLibrary.
Variable ext : External.
Variable lib : Library.

(** [convertHtml]: the Markdown, the error returned (always [nil]) and
    what is printed on standard output. *)
Definition convertHtml (c : Converter) (html : gostring)
  : gostring * option error * list gostring :=
  let processedHTML := preprocessCDATA html in
  let '(md, err) := ConvertString lib (plugin c) processedHTML in
  let printed :=
    match err with
    | Some e => [str "Conversion error: " ++ e ++ [nl]]
    | None => []
    end in
  (postprocessMarkdown md, None, printed).

Definition ConvertHTML (c : Converter) (html : gostring)
  : gostring * option error * list gostring :=
  convertHtml c html.

Fixpoint imageRefsOf (matches : list gostring) (pageID baseURL : gostring)
  : list ImageRef :=
  match matches with
  | [] => []
  | imageHTML :: rest =>
      let fileName := ParseConfluenceImage ext imageHTML in
      if eqs fileName [] then imageRefsOf rest pageID baseURL
      else
        let encodedFilename := QueryEscape lib fileName in
        let actualURL := TrimSuffix1 baseURL 47 ++ str "/download/attachments/"
                           ++ pageID ++ str "/" ++ encodedFilename in
        {| OriginalURL := actualURL; FileName := fileName;
           ContentType := []; Size := 0 |} :: imageRefsOf rest pageID baseURL
  end.

Definition extractImageReferences (html pageID baseURL : gostring)
  : list ImageRef :=
  imageRefsOf (FindAllString reAttachment html) pageID baseURL.

(** The loop of [downloadImages]: the error, or the references with their
    content type and size filled in. *)
Fixpoint downloadEach (c : Converter) (r : Resolver) (page : ConfluencePage)
    (outputDir : gostring) (images : list ImageRef) : error + list ImageRef :=
  match images with
  | [] => inr []
  | imageRef :: rest =>
      match r page (FileName imageRef) with
      | inl err =>
          inl (str "failed to download image " ++ FileName imageRef ++ str ": "
                 ++ err)
      | inr (attachment, data) =>
          if (maxImageSizeBytes <? FileSize attachment)%Z
          then inl (str "image " ++ FileName imageRef ++ str " too large: "
                      ++ itoaZ (FileSize attachment) ++ str " bytes (max "
                      ++ itoaZ maxImageSizeBytes ++ str ")")
          else
            let filePath :=
              filepathJoin lib outputDir (conv_imageFolder c) (FileName imageRef) in
            match MkdirAll lib (filepathDir lib filePath) with
            | Some err => inl (str "failed to create image directory: " ++ err)
            | None =>
                match WriteFile lib filePath data with
                | Some err =>
                    inl (str "failed to write image " ++ FileName imageRef
                           ++ str ": " ++ err)
                | None =>
                    match downloadEach c r page outputDir rest with
                    | inl err => inl err
                    | inr rest' =>
                        inr ({| OriginalURL := OriginalURL imageRef;
                                FileName := FileName imageRef;
                                ContentType := MediaType attachment;
                                Size := FileSize attachment |} :: rest')
                    end
                end
            end
      end
  end.

Definition downloadImages (c : Converter) (r : Resolver) (doc : MarkdownDocument)
    (page : ConfluencePage) (outputDir : gostring) : error + MarkdownDocument :=
  match downloadEach c r page outputDir (Images doc) with
  | inl err => inl err
  | inr images =>
      inr {| PageID := PageID doc; Content := Content doc; Images := images |}
  end.

(** [ConvertPage] for a non-nil page: the error or the document, and the
    converter afterwards (its plugin is updated in place once the page has
    passed validation). *)
Definition ConvertPage (c : Converter) (page : ConfluencePage)
    (baseURL outputDir : gostring) : (error + MarkdownDocument) * Converter :=
  match Validate (urlParseError lib) page with
  | Some err => (inl (str "invalid page: " ++ err), c)
  | None =>
      let c := {| plugin := SetBaseURL (SetCurrentPage (plugin c) page) baseURL;
                  attachments := attachments c;
                  conv_imageFolder := conv_imageFolder c |} in
      match NewMarkdownDocument lib page baseURL with
      | inl err => (inl (str "failed to create markdown document: " ++ err), c)
      | inr doc =>
          let htmlContent := StorageValue page in
          match convertHtml c htmlContent with
          | (_, Some err, _) =>
              (inl (str "failed to convert HTML to Markdown: " ++ err), c)
          | (markdown, None, _) =>
              let doc :=
                {| PageID := PageID doc; Content := markdown;
                   Images := extractImageReferences htmlContent (PageID doc)
                               baseURL |} in
              match attachments c with
              | Some r =>
                  match downloadImages c r doc page outputDir with
                  | inl err => (inl (str "failed to download images: " ++ err), c)
                  | inr doc => (inr doc, c)
                  end
              | None => (inr doc, c)
              end
          end
      end
  end.

End WithLibrary.

End Converter.
Export Converter.

(** ** Vocabulary of the statements *)

Module Props.

(** The th and td elements among the children of a row. *)
Definition cellsOf (tr : Node) : list Node :=
  List.filter (fun n => isElement "td" n || isElement "th" n) (Children tr).

Definition separatorCount (lines : list Line) : nat :=
  length (List.filter (fun l => match l with SeparatorLine _ => true | _ => false end)
            lines).

Definition rowWidths (lines : list Line) : list nat :=
  flat_map (fun l => match l with RowLine cells => [length cells] | _ => [] end)
    lines.

(** Two neighbouring runes that are both white space. *)
Fixpoint hasSpaceRun (s : gostring) : bool :=
  match s with
  | a :: (b :: _) as t => (isSpace a && isSpace b) || hasSpaceRun t
  | _ => false
  end.

(** No white space at all. *)
Definition noSpace (s : gostring) : Prop :=
  List.Forall (fun c => isSpace c = false) s.

(** No line feed, no carriage return, no two white-space runes in a row. *)
Definition oneLine (s : gostring) : Prop :=
  ~ In 10 s /\ ~ In 13 s /\ hasSpaceRun s = false.

(** A body line inside the block quote: a bare marker for a blank line. *)
Definition quoted (line : gostring) : gostring :=
  if eqs (TrimSpace line) [] then str ">" else str "> " ++ line.

(** The text is not empty and does not end in a line feed. *)
Definition endsOpen (s : gostring) : Prop :=
  exists y c, s = y ++ [c] /\ c <> nl.

Definition isError {E A : Type} (r : E + A) : bool :=
  match r with inl _ => true | inr _ => false end.

(** An element with one of the given tags. *)
Definition elementIn (names : list string) (n : Node) : bool :=
  match n with
  | ElementNode tag _ _ => tagIn tag names
  | _ => false
  end.

(** The node or one of its descendants is an element with one of the tags. *)
Fixpoint containsTag (names : list string) (n : Node) : bool :=
  match n with
  | ElementNode tag _ cs =>
      tagIn tag names
      || (fix anyChild (cs : list Node) : bool :=
            match cs with
            | [] => false
            | child :: rest => containsTag names child || anyChild rest
            end) cs
  | _ => false
  end.

(** The classification of a cell in the words of the specification: complex
    when it contains a list, block quote, nested table, preformatted block
    or task list at any depth, or more than one paragraph or heading child,
    or a heading with a line break in it, or a line break directly under
    the cell. *)
Definition spec_cellIsComplex (cell : Node) : bool :=
  existsb (containsTag
             ["ul"; "ol"; "blockquote"; "table"; "pre"; "ac:task-list"]%string)
    (Children cell)
  || (1 <? length (List.filter (elementIn ("p"%string :: headingTags)) (Children cell)))%nat
  || existsb (fun c => elementIn headingTags c && containsBrTags c) (Children cell)
  || existsb (isElement "br") (Children cell).

(** The four tests [cellHasComplexContent] makes on the children of a cell. *)
Definition directlyComplex (cell : Node) : bool :=
  existsb (elementIn blockTags) (Children cell)
  || (1 <? length (List.filter (elementIn ("p"%string :: headingTags)) (Children cell)))%nat
  || existsb (fun c => elementIn ("p"%string :: headingTags) c && containsBrTags c)
       (Children cell)
  || existsb (isElement "br") (Children cell).

(** What [escapeCDATA] writes for one rune, and what is left of it after
    each of the three replacements of [extractPlainTextBodyContent]. *)
Definition escaped (x : N) : gostring :=
  if x =? 38 then str "&amp;"
  else if x =? 60 then str "&lt;"
  else if x =? 62 then str "&gt;"
  else [x].


(** The li elements among the children of a list, each with its number. *)
Definition listItems (cs : list Node) : list (nat * Node) :=
  let lis := List.filter (isElement "li") cs in
  combine (seq 1 (length lis)) lis.

(** The loop of [flattenListContentWithDepth] over the children of the
    list, as a function of its own. *)
Section ListLoop.
Variable ext : External.
Variable p : ConfluencePlugin.
Variable ordered : bool.
Variable depth : nat.

Fixpoint listEntriesFrom (cs : list Node) (index : nat) : gostring :=
  match cs with
  | [] => []
  | li :: rest =>
      if isElement "li" li then
        Repeat (str "&nbsp;&nbsp;") depth
          ++ (if ordered then itoa index ++ str ". " else bulletMark)
          ++ flattenListItemContent ext p li depth
          ++ str "<br>"
          ++ listEntriesFrom rest (if ordered then S index else index)
      else listEntriesFrom rest index
  end.
End ListLoop.

(** The number of line feeds a text begins with. *)
Fixpoint leadingLineFeeds (s : gostring) : nat :=
  match s with
  | c :: t => if c =? nl then S (leadingLineFeeds t) else O
  | [] => O
  end.

(** Three line feeds in a row somewhere in the text. *)
Fixpoint hasTripleLineFeed (s : gostring) : bool :=
  match s with
  | [] => false
  | _ :: t => (3 <=? leadingLineFeeds s)%nat || hasTripleLineFeed t
  end.

(** The cells of the row lines, line by line. *)
Definition rowsOf (lines : list Line) : list (list gostring) :=
  flat_map (fun l => match l with RowLine cells => [cells] | _ => [] end) lines.

(** The rows of a table body that [handleTable] keeps: the tr elements
    with at least one th or td child. *)
Definition keptRows (trs : list Node) : list Node :=
  List.filter (fun tr => isElement "tr" tr
                         && match cellsOf tr with [] => false | _ => true end) trs.

End Props.
Export Props.

(** ** A small environment to run the definitions in

    A stand-in for the third-party renderer that prints the text of a node,
    and a few documents. *)

Module Sample.

Fixpoint textOf (n : Node) : gostring :=
  match n with
  | TextNode d => d
  | ElementNode _ _ cs =>
      (fix each (cs : list Node) : gostring :=
         match cs with
         | [] => []
         | c :: rest => textOf c ++ each rest
         end) cs
  | CommentNode _ => []
  end.

Definition plainExternal : External := {|
  RenderNodes := textOf;
  htmlRender := textOf;
  slugMake := fun s => s;
  ParseConfluenceImage := fun _ => [];
  extractLanguageParameter := fun _ => [];
  extractCodeContent := fun s => s;
  gqHtml := textOf;
  gqCDATAPre := fun _ => None;
  gqParameter := fun _ _ => None;
  gqPlainTextBody := textOf;
  gqAttachmentFilename := fun _ => None;
  gqText := textOf;
  gqLinkAnchor := fun n => attrNonEmpty "ac:anchor" (Attr n);
  gqLinkBody := textOf
|}.

Definition plainLibrary : Library := {|
  ConvertString := fun _ html => (html, None);
  NewMarkdownDocument := fun page _ =>
    inr {| PageID := ID page; Content := []; Images := [] |};
  QueryEscape := fun s => s;
  urlParseError := fun _ => None;
  filepathJoin := fun a b c => a ++ str "/" ++ b ++ str "/" ++ c;
  filepathDir := fun s => s;
  MkdirAll := fun _ => None;
  WriteFile := fun _ _ => None
|}.


Definition plainPlugin : ConfluencePlugin := NewConfluencePlugin (str "assets").
Definition plainConverter : Converter :=
  NewConverter None (fun _ _ _ => inl (str "offline")) [].

Definition el (tag : string) (cs : list Node) : Node := ElementNode (str tag) [] cs.
Definition elWith (tag key val : string) (cs : list Node) : Node :=
  ElementNode (str tag) [{| Key := str key; Val := str val |}] cs.
Definition text (s : string) : Node := TextNode (str s).

(** A table whose first row is a data row and whose second is a header row. *)
Definition tableHeaderSecond : Node :=
  el "table" [el "tbody" [el "tr" [el "td" [text "a"]];
                          el "tr" [el "th" [text "b"]]]].

(** A table with a header row of two cells and a data row of one. *)
Definition tableRagged : Node :=
  el "table" [el "tbody" [el "tr" [el "th" [text "k"]; el "th" [text "v"]];
                          el "tr" [el "td" [text "x"]]]].

Definition cellDiv : Node := el "td" [el "div" [text "x"]].
Definition cellDeepList : Node :=
  el "td" [el "span" [el "ul" [el "li" [text "a"]]]].
Definition cellParagraphBreak : Node :=
  el "td" [el "p" [text "a"; el "br" []; text "b"]].
Definition cellPlain : Node := el "td" [text " "; el "p" [text " hello "]].
Definition cellList : Node :=
  el "td" [el "ul" [el "li" [text "a"]; el "li" [text "b"]]].

Definition macroFoo : Node := elWith "ac:structured-macro" "ac:name" "foo" [].

Definition paragraphDiskFull : Node := el "p" [text "Disk full"].
Definition macroWarning : Node :=
  elWith "ac:structured-macro" "ac:name" "warning"
    [el "ac:rich-text-body" [paragraphDiskFull]].

Definition mentionAbc : Node :=
  el "ac:link" [elWith "ri:user" "ri:account-id" "abc123" []].

Definition user (id name : string) : User :=
  {| AccountID := str id; DisplayName := str name |}.

Definition pageNoTitle : ConfluencePage :=
  {| ID := str "42"; Title := []; SpaceKey := str "DOC";
     StorageValue := str "<p>hello</p>"; Attachments := [];
     CreatedBy := user "" ""; UpdatedBy := user "" "" |}.

Definition pageGood : ConfluencePage :=
  {| ID := str "42"; Title := str "Home"; SpaceKey := str "DOC";
     StorageValue := str "<p>hello</p>"; Attachments := [];
     CreatedBy := user "u1" "Ann"; UpdatedBy := user "" "" |}.

Definition attachmentGood : ConfluenceAttachment :=
  {| att_ID := str "a1"; att_Title := str "logo.png"; MediaType := str "image/png";
     FileSize := 2048; DownloadLink := str "/download/attachments/42/logo.png" |}.
Definition attachmentEmpty : ConfluenceAttachment :=
  {| att_ID := str "a2"; att_Title := str "empty.png"; MediaType := str "image/png";
     FileSize := 0; DownloadLink := str "/download/attachments/42/empty.png" |}.

Definition pageNoId : ConfluencePage :=
  {| ID := []; Title := []; SpaceKey := []; StorageValue := [];
     Attachments := [attachmentEmpty];
     CreatedBy := user "" ""; UpdatedBy := user "" "" |}.

Definition pageBadAttachment : ConfluencePage :=
  {| ID := str "42"; Title := str "Home"; SpaceKey := str "DOC";
     StorageValue := str "<p>hello</p>";
     Attachments := [attachmentGood; attachmentEmpty];
     CreatedBy := user "u1" "Ann"; UpdatedBy := user "" "" |}.

(** A line feed, an empty list item, a blank line, a line holding one
    space, a blank line and an indented list item. *)
Definition markdownEmptyItem : gostring :=
  [nl] ++ str "-" ++ [nl; nl] ++ str " " ++ [nl; nl] ++ str " - x".

End Sample.

(* ================================================================== *)
(** * Part II. Properties                                               *)
(* ================================================================== *)

Arguments str : simpl never.
Arguments eqs : simpl never.

(** ** Unsupported macros *)

Lemma named_of_unknown (name : gostring) (nm : string) :
  tagIn name knownMacros = false -> In nm knownMacros -> named name nm = false.
Proof.
  unfold tagIn, named. intros H Hin.
  destruct (eqs name (str nm)) eqn:E; [|reflexivity].
  rewrite <- H. symmetry. apply existsb_exists. exists nm. split; assumption.
Qed.

(** C6. A structured macro whose name is outside the set of handled names is
    rendered as the comment "<!-- Unsupported macro: NAME -->" carrying that
    name, and the handler returns Success. *)
Theorem unsupported_macro_marker (ext : External) (p : ConfluencePlugin) (n : Node) :
  tagIn (macroName n) knownMacros = false ->
  handleMacro ext p n =
    (str "<!-- Unsupported macro: " ++ macroName n ++ str " -->", RenderSuccess).
Proof.
  intros H. unfold handleMacro.
  repeat (rewrite (named_of_unknown _ H); [| simpl; tauto]).
  reflexivity.
Qed.

Lemma unsupported_macro_marker_witness :
  handleMacro Sample.plainExternal Sample.plainPlugin Sample.macroFoo =
    (str "<!-- Unsupported macro: foo -->", RenderSuccess).
Proof.
  exact (unsupported_macro_marker Sample.plainExternal Sample.plainPlugin
           Sample.macroFoo eq_refl).
Defined.

(** ** User mentions *)

(** C9. A link node that is not rendered as an anchor link and carries a
    user reference with account id [accountID] (for instance abc123) is
    rendered as " @user(ID) " when the user cache has no entry for the id,
    and as " @NAME " with the cached display name when it has one.  The
    handler consults nothing but the cache. *)
Theorem mention_rendering (ext : External) (p : ConfluencePlugin) (n : Node)
    (accountID : gostring) :
  snd (handleAnchorLink ext n) = RenderTryNext ->
  mentionedAccount (Children n) = Some accountID ->
  (userCache p !! accountID = None ->
   handleLink ext p n = (str " @user(" ++ accountID ++ str ") ", RenderTryNext))
  /\ (forall displayName : gostring,
        userCache p !! accountID = Some displayName ->
        handleLink ext p n = (str " @" ++ displayName ++ str " ", RenderTryNext)).
Proof.
  intros Hanchor Hacc.
  assert (Hnone : handleAnchorLink ext n = ([], RenderTryNext)).
  { revert Hanchor. unfold handleAnchorLink.
    destruct (gqLinkAnchor ext n); [|reflexivity].
    destruct (eqs (TrimSpace (gqLinkBody ext n)) []); [reflexivity|].
    simpl. discriminate. }
  unfold handleLink. rewrite Hnone, Hacc.
  split.
  - intros Hmiss. rewrite Hmiss. reflexivity.
  - intros displayName Hhit. rewrite Hhit. reflexivity.
Qed.

Lemma mention_rendering_witness :
  handleLink Sample.plainExternal Sample.plainPlugin Sample.mentionAbc
    = (str " @user(abc123) ", RenderTryNext)
  /\ handleLink Sample.plainExternal
       (withCache Sample.plainPlugin (<[str "abc123" := str "Ann"]> ∅))
       Sample.mentionAbc
     = (str " @Ann ", RenderTryNext).
Proof.
  split.
  - apply (proj1 (mention_rendering Sample.plainExternal Sample.plainPlugin
                    Sample.mentionAbc (accountID := str "abc123")
                    eq_refl eq_refl)).
    apply lookup_empty.
  - apply (proj2 (mention_rendering Sample.plainExternal
                    (withCache Sample.plainPlugin
                       (<[str "abc123" := str "Ann"]> ∅))
                    Sample.mentionAbc (accountID := str "abc123")
                    eq_refl eq_refl) (str "Ann")).
    apply lookup_insert_eq.
Defined.

(** ** Raw-markup conversion *)

(** C10. [ConvertHTML] returns a nil error for every input: the Markdown it
    returns is the post-processed output of the library conversion, and an
    error of that conversion is only printed. *)
Theorem ConvertHTML_error_is_nil (lib : Library) (c : Converter) (html : gostring) :
  let converted := ConvertString lib (plugin c) (preprocessCDATA html) in
  ConvertHTML lib c html =
    (postprocessMarkdown (fst converted), None,
     match snd converted with
     | Some e => [str "Conversion error: " ++ e ++ [nl]]
     | None => []
     end).
Proof.
  unfold ConvertHTML, convertHtml. simpl.
  destruct (ConvertString lib (plugin c) (preprocessCDATA html)) as [md err].
  reflexivity.
Qed.

(** ** Rows of a table *)

Section Rows.
Variable ext : External.
Variable p : ConfluencePlugin.

Lemma eqs_true (a b : gostring) : eqs a b = true <-> a = b.
Proof. unfold eqs. apply bool_decide_eq_true. Qed.

Lemma eqs_refl (a : gostring) : eqs a a = true.
Proof. apply eqs_true. reflexivity. Qed.

Lemma rowLoop_closed_form (cs : list Node) (row : list gostring) (h s : bool) :
  rowLoop ext p cs row h s =
    (row ++ map (cellText ext p)
              (List.filter (fun n => isElement "td" n || isElement "th" n) cs),
     h && negb (existsb (isElement "td") cs),
     s || existsb (isElement "td") cs).
Proof.
  revert row h s. induction cs as [|cell rest IH]; intros row h s.
  - simpl. rewrite app_nil_r, andb_true_r, orb_false_r. reflexivity.
  - destruct cell as [d|tag a gcs|d]; simpl; try apply IH.
    destruct (eqs tag (str "td")) eqn:Etd; simpl.
    + rewrite IH. rewrite <- app_assoc. simpl.
      rewrite andb_false_r, orb_true_r. reflexivity.
    + destruct (eqs tag (str "th")) eqn:Eth; simpl; rewrite IH.
      * rewrite <- app_assoc. reflexivity.
      * reflexivity.
Qed.

Lemma th_is_not_td (n : Node) : isElement "td" n = true -> isElement "th" n = false.
Proof.
  destruct n as [d|tag a cs|d]; simpl; try discriminate.
  intros H. apply eqs_true in H. subst tag. reflexivity.
Qed.

Lemma header_test_on_cells (cs : list Node) :
  let cells := List.filter (fun n => isElement "td" n || isElement "th" n) cs in
  negb (existsb (isElement "td") cs) =
    forallb (isElement "th") cells && negb (existsb (isElement "td") cells).
Proof.
  induction cs as [|n rest IH]; simpl; [reflexivity|].
  destruct (isElement "td" n) eqn:Etd; simpl.
  - rewrite Etd, (th_is_not_td _ Etd). reflexivity.
  - destruct (isElement "th" n) eqn:Eth; simpl.
    + rewrite Etd, Eth. simpl. exact IH.
    + exact IH.
Qed.

(** C4. The cells of a row are its th and td children, in order, and the row
    is a header row exactly when every one of them is a th and none is a td.
    A row of a th and a td is a data row; a row of two th is a header row. *)
Theorem row_classification :
  (forall tr : Node,
     rowCells ext p tr = map (cellText ext p) (cellsOf tr)
     /\ rowIsHeader ext p tr =
          forallb (isElement "th") (cellsOf tr)
          && negb (existsb (isElement "td") (cellsOf tr)))
  /\ (forall a a1 c1 a2 c2,
        rowIsHeader ext p
          (ElementNode (str "tr") a
             [ElementNode (str "th") a1 c1; ElementNode (str "td") a2 c2]) = false)
  /\ (forall a a1 c1 a2 c2,
        rowIsHeader ext p
          (ElementNode (str "tr") a
             [ElementNode (str "th") a1 c1; ElementNode (str "th") a2 c2]) = true).
Proof.
  split; [|split].
  - intros tr. unfold rowCells, rowIsHeader, scanRow, cellsOf.
    rewrite rowLoop_closed_form. simpl. split; [reflexivity|].
    rewrite andb_diag. apply header_test_on_cells.
  - intros. unfold rowIsHeader, scanRow. rewrite rowLoop_closed_form. reflexivity.
  - intros. unfold rowIsHeader, scanRow. rewrite rowLoop_closed_form. reflexivity.
Qed.

(** ** Shape of the emitted table *)

Lemma emitFrom_later_rows (i : nat) (rows : list (list gostring)) (h0 has : bool)
    (m : nat) :
  emitFrom (S i) rows h0 has m = map RowLine rows.
Proof.
  revert i. induction rows as [|row rest IH]; intros i; simpl; [reflexivity|].
  rewrite IH. reflexivity.
Qed.

(** The lines written for a non-empty list of collected rows: row 0, the
    separator when row 0 is a header row or no row is, then the other rows. *)
Lemma tableLines_shape (c : list gostring * bool)
    (cs : list (list gostring * bool)) :
  let m := maxCols (map fst (c :: cs)) in
  tableLines (c :: cs) =
    RowLine (padRow m (fst c))
    :: (if snd c || negb (existsb (fun b => b) (map snd (c :: cs)))
        then [SeparatorLine m] else [])
    ++ map RowLine (map (padRow m) (map fst cs)).
Proof.
  unfold tableLines. cbn [map hd emitFrom Nat.eqb andb].
  rewrite emitFrom_later_rows. reflexivity.
Qed.

Lemma maxCols_from_ge (rows : list (list gostring)) (m0 : nat) :
  (m0 <= fold_left (fun m row => if (m <? length row)%nat then length row else m)
           rows m0)%nat
  /\ Forall (fun row =>
       (length row <= fold_left
          (fun m row => if (m <? length row)%nat then length row else m) rows m0)%nat)
       rows.
Proof.
  revert m0. induction rows as [|row rest IH]; intros m0; simpl.
  - split; [lia | constructor].
  - destruct (Nat.ltb_spec m0 (length row)) as [Hlt|Hge].
    + destruct (IH (length row)) as [H1 H2]. split; [lia|].
      constructor; [exact H1 | exact H2].
    + destruct (IH m0) as [H1 H2]. split; [lia|].
      constructor; [lia | exact H2].
Qed.

Lemma padRow_length (m : nat) (row : list gostring) :
  (length row <= m)%nat -> length (padRow m row) = m.
Proof.
  intros H. unfold padRow. rewrite length_app, repeat_length. lia.
Qed.

(** Every emitted row has as many cells as the widest row of the table. *)
Lemma tableLines_rectangular (collected : list (list gostring * bool)) (w : nat) :
  In w (rowWidths (tableLines collected)) -> w = maxCols (map fst collected).
Proof.
  destruct collected as [|c cs]; [intros []|].
  rewrite tableLines_shape.
  set (m := maxCols (map fst (c :: cs))).
  assert (Hall : Forall (fun row => (length row <= m)%nat) (map fst (c :: cs))).
  { apply (maxCols_from_ge (map fst (c :: cs)) 0). }
  inversion Hall as [|r rs Hc Hcs]; subst.
  unfold rowWidths. simpl. intros [Hw|Hw].
  - rewrite <- Hw. apply padRow_length. exact Hc.
  - rewrite flat_map_app in Hw. apply in_app_or in Hw. destruct Hw as [Hw|Hw].
    + destruct (snd c || _); simpl in Hw; destruct Hw.
    + apply in_flat_map in Hw. destruct Hw as [l [Hl Hw]].
      apply in_map_iff in Hl. destruct Hl as [row' [<- Hl]].
      apply in_map_iff in Hl. destruct Hl as [row [<- Hl]].
      simpl in Hw. destruct Hw as [Hw|[]]. rewrite <- Hw.
      apply padRow_length.
      rewrite List.Forall_forall in Hcs. apply Hcs. exact Hl.
Qed.

(** One separator, right after row 0, when row 0 is a header row or no row
    of the table is; none otherwise. *)
Lemma tableLines_separator (c : list gostring * bool)
    (cs : list (list gostring * bool)) :
  separatorCount (tableLines (c :: cs)) =
    (if snd c || negb (existsb (fun b => b) (map snd (c :: cs))) then 1 else 0)%nat
  /\ (snd c || negb (existsb (fun b => b) (map snd (c :: cs))) = true ->
      nth_error (tableLines (c :: cs)) 1
        = Some (SeparatorLine (maxCols (map fst (c :: cs))))).
Proof.
  rewrite tableLines_shape. unfold separatorCount.
  assert (Hrows : forall rows : list (list gostring),
            List.filter (fun l => match l with SeparatorLine _ => true | _ => false end)
              (map RowLine rows) = []).
  { induction rows as [|r rs IH]; simpl; [reflexivity | exact IH]. }
  split.
  - cbn [List.filter]. rewrite List.filter_app, Hrows, app_nil_r.
    destruct (snd c || _); reflexivity.
  - intros ->. reflexivity.
Qed.

(** C1. For a table whose first row is a data row and whose second row is a
    header row, the rows are collected with the flags [false; true], no
    separator line is written, and the output is two row lines only. *)
Theorem header_in_second_row_has_no_separator :
  option_map (fun collected =>
                (map snd collected, separatorCount (tableLines collected)))
    (tableRows ext p Sample.tableHeaderSecond) = Some ([false; true], 0%nat)
  /\ handleTable Sample.plainExternal Sample.plainPlugin Sample.tableHeaderSecond
     = (str "| a |" ++ [nl] ++ str "| b |" ++ [nl] ++ [nl], RenderSuccess).
Proof.
  split; reflexivity.
Qed.

End Rows.

(** ** Classification of cells *)

Lemma tagIn_true (tag : gostring) (names : list string) :
  tagIn tag names = true -> exists nm, In nm names /\ tag = str nm.
Proof.
  unfold tagIn. intros H. apply existsb_exists in H.
  destruct H as [nm [Hin Heq]]. exists nm. split; [exact Hin|].
  apply eqs_true. exact Heq.
Qed.

Lemma paragraph_or_heading_tag (tag : gostring) :
  tagIn tag ("p"%string :: headingTags) = true ->
  tagIn tag blockTags = false /\ eqs tag (str "br") = false.
Proof.
  intros H. apply tagIn_true in H. destruct H as [nm [Hin ->]].
  simpl in Hin.
  repeat (destruct Hin as [<-|Hin]; [split; reflexivity|]).
  destruct Hin.
Qed.

Lemma block_tag_is_not_break (tag : gostring) :
  tagIn tag blockTags = true -> eqs tag (str "br") = false.
Proof.
  intros H. apply tagIn_true in H. destruct H as [nm [Hin ->]].
  simpl in Hin.
  repeat (destruct Hin as [<-|Hin]; [reflexivity|]).
  destruct Hin.
Qed.

Lemma complexFrom_closed_form (cs : list Node) (k : nat) :
  (k <= 1)%nat ->
  complexFrom cs k =
    existsb (elementIn blockTags) cs
    || (1 <? k + length (List.filter (elementIn ("p"%string :: headingTags)) cs))%nat
    || existsb (fun c => elementIn ("p"%string :: headingTags) c && containsBrTags c) cs
    || existsb (isElement "br") cs.
Proof.
  revert k. induction cs as [|child rest IH]; intros k Hk.
  - simpl. rewrite Nat.add_0_r.
    destruct (Nat.ltb_spec 1 k); [lia | reflexivity].
  - destruct child as [d|tag a gcs|d];
      try (cbn [complexFrom existsb List.filter elementIn isElement orb andb];
           apply IH; exact Hk).
    cbn [complexFrom existsb List.filter elementIn isElement].
    destruct (tagIn tag blockTags) eqn:Eblock; [reflexivity|].
    destruct (tagIn tag ("p"%string :: headingTags)) eqn:Epara.
    + destruct (paragraph_or_heading_tag _ Epara) as [_ Ebr]. rewrite Ebr.
      cbn [length orb andb]. rewrite Nat.add_succ_r.
      destruct k as [|k].
      * cbn [Nat.ltb Nat.leb].
        destruct (containsBrTags (ElementNode tag a gcs)) eqn:Hbr.
        -- rewrite !orb_true_r. reflexivity.
        -- rewrite (IH 1%nat) by lia. cbn [orb]. reflexivity.
      * assert (k = 0%nat) by lia. subst k. cbn [Nat.ltb Nat.leb].
        rewrite !orb_true_r. reflexivity.
    + cbn [orb andb].
      destruct (eqs tag (str "br")) eqn:Ebr.
      * rewrite !orb_true_r. reflexivity.
      * cbn [orb]. apply IH. exact Hk.
Qed.

(** C3, as the code has it. A cell is complex exactly when one of its
    children is a ul, ol, div, blockquote, pre, table or ac:task-list
    element, or more than one of its children is a paragraph or heading, or
    a paragraph or heading child has a br in it, or a br is a child of the
    cell. A cell that is not complex is rendered by the library from its
    first child that is not blank text, trimmed, with a single space for an
    empty result; a complex one from its flattened content. *)
Theorem cell_classification (ext : External) (p : ConfluencePlugin) (cell : Node) :
  cellHasComplexContent cell = directlyComplex cell
  /\ (cellHasComplexContent cell = false ->
      let rendered :=
        TrimSpace (match firstNonBlank (Children cell) with
                   | Some firstChild => RenderNodes ext firstChild
                   | None => []
                   end) in
      cellText ext p cell =
        if eqs rendered [] || eqs rendered (str "&nbsp;") then str " "
        else rendered)
  /\ (cellHasComplexContent cell = true ->
      let flat := getCellHTMLContent ext p cell in
      cellText ext p cell =
        if eqs flat [] || eqs flat (str "&nbsp;") then str " " else flat).
Proof.
  split; [|split].
  - unfold cellHasComplexContent, directlyComplex.
    rewrite complexFrom_closed_form by lia. reflexivity.
  - intros H. unfold cellText. rewrite H. reflexivity.
  - intros H. unfold cellText. rewrite H. reflexivity.
Qed.

Lemma cell_classification_witness :
  cellText Sample.plainExternal Sample.plainPlugin Sample.cellPlain = str "hello"
  /\ cellHasComplexContent Sample.cellList = true.
Proof.
  split.
  - exact (proj1 (proj2 (cell_classification Sample.plainExternal
                           Sample.plainPlugin Sample.cellPlain)) eq_refl).
  - reflexivity.
Defined.

(** C3, as stated, fails: a div child makes a cell complex though the
    statement does not list it, a list below a span does not though the
    statement counts lists at any depth, and a br inside a paragraph does
    though the statement names headings only. *)
Lemma cell_classification_differs_from_statement :
  (cellHasComplexContent Sample.cellDiv = true
   /\ spec_cellIsComplex Sample.cellDiv = false)
  /\ (cellHasComplexContent Sample.cellDeepList = false
      /\ spec_cellIsComplex Sample.cellDeepList = true)
  /\ (cellHasComplexContent Sample.cellParagraphBreak = true
      /\ spec_cellIsComplex Sample.cellParagraphBreak = false).
Proof. repeat split; reflexivity. Qed.

(** ** Failures of the page conversion *)

Section PageConversion.
Variable ext : External.
Variable lib : Library.

Lemma validateAttachments_none (i : nat) (l : list ConfluenceAttachment) :
  validateAttachments (urlParseError lib) i l = None
  <-> List.Forall (fun a => Attachment_Validate (urlParseError lib) a = None) l.
Proof.
  revert i. induction l as [|a rest IH]; intros i; simpl.
  - split; [constructor | reflexivity].
  - destruct (Attachment_Validate (urlParseError lib) a) eqn:Ea.
    + split; [discriminate|]. intros H. inversion H; subst. congruence.
    + rewrite IH. split.
      * intros H. constructor; assumption.
      * intros H. inversion H; assumption.
Qed.

Lemma eqs_false (a b : gostring) : eqs a b = false <-> a <> b.
Proof. unfold eqs. apply bool_decide_eq_false. Qed.

Lemma Validate_none (page : ConfluencePage) :
  Validate (urlParseError lib) page = None
  <-> ID page <> [] /\ Title page <> [] /\ StorageValue page <> []
      /\ SpaceKey page <> []
      /\ List.Forall (fun a => Attachment_Validate (urlParseError lib) a = None)
           (Attachments page).
Proof.
  unfold Validate.
  destruct (eqs (ID page) []) eqn:E1;
    [apply eqs_true in E1; split; [discriminate | tauto]|].
  destruct (eqs (Title page) []) eqn:E2;
    [apply eqs_true in E2; split; [discriminate | tauto]|].
  destruct (eqs (StorageValue page) []) eqn:E3;
    [apply eqs_true in E3; split; [discriminate | tauto]|].
  destruct (eqs (SpaceKey page) []) eqn:E4;
    [apply eqs_true in E4; split; [discriminate | tauto]|].
  apply eqs_false in E1, E2, E3, E4.
  rewrite validateAttachments_none. tauto.
Qed.

Lemma downloadEach_imageFolder (c1 c2 : Converter) (r : Resolver)
    (page : ConfluencePage) (outputDir : gostring) (images : list ImageRef) :
  conv_imageFolder c1 = conv_imageFolder c2 ->
  downloadEach lib c1 r page outputDir images
  = downloadEach lib c2 r page outputDir images.
Proof.
  intros Hc. induction images as [|im rest IH]; simpl; [reflexivity|].
  rewrite Hc, IH. reflexivity.
Qed.

(** C8, as the code has it. [ConvertPage] fails before any rendering exactly
    when validation rejects the page, which is when the identifier, the
    title, the content or the space key is empty or an attachment record is
    invalid. Once validation has passed, it fails exactly when the Markdown
    document cannot be created or, with attachment download enabled, when
    an image download fails; the outcome of the markup conversion plays no
    part. *)
Theorem ConvertPage_failures (c : Converter) (page : ConfluencePage)
    (baseURL outputDir : gostring) :
  (forall err, Validate (urlParseError lib) page = Some err ->
     ConvertPage ext lib c page baseURL outputDir
       = (inl (str "invalid page: " ++ err), c))
  /\ (Validate (urlParseError lib) page = None
      <-> ID page <> [] /\ Title page <> [] /\ StorageValue page <> []
          /\ SpaceKey page <> []
          /\ List.Forall
               (fun a => Attachment_Validate (urlParseError lib) a = None)
               (Attachments page))
  /\ (Validate (urlParseError lib) page = None ->
      isError (fst (ConvertPage ext lib c page baseURL outputDir)) =
        match NewMarkdownDocument lib page baseURL with
        | inl _ => true
        | inr doc =>
            match attachments c with
            | None => false
            | Some r =>
                isError (downloadEach lib c r page outputDir
                           (extractImageReferences ext lib (StorageValue page)
                              (PageID doc) baseURL))
            end
        end).
Proof.
  split; [|split].
  - intros err H. unfold ConvertPage. rewrite H. reflexivity.
  - apply Validate_none.
  - intros H. unfold ConvertPage. rewrite H.
    destruct (NewMarkdownDocument lib page baseURL) as [e|doc]; [reflexivity|].
    unfold convertHtml.
    destruct (ConvertString lib _ _) as [md cerr].
    cbn [attachments].
    destruct (attachments c) as [r|]; [|reflexivity].
    unfold downloadImages. cbn [Images].
    rewrite (downloadEach_imageFolder _ c) by reflexivity.
    destruct (downloadEach lib c r page outputDir _); reflexivity.
Qed.

End PageConversion.

Lemma ConvertPage_failures_witness :
  isError (fst (ConvertPage Sample.plainExternal Sample.plainLibrary
                  Sample.plainConverter Sample.pageGood (str "https://wiki")
                  (str "out")))
  = false.
Proof.
  exact (proj2 (proj2 (ConvertPage_failures Sample.plainExternal
                         Sample.plainLibrary Sample.plainConverter
                         Sample.pageGood (str "https://wiki") (str "out")))
           eq_refl).
Defined.

(** C8, as stated, fails: a page whose identifier, content and space key
    are all present is rejected because its title is empty. *)
Lemma ConvertPage_rejects_empty_title :
  ConvertPage Sample.plainExternal Sample.plainLibrary Sample.plainConverter
    Sample.pageNoTitle (str "https://wiki") (str "out")
  = (inl (str "invalid page: page title cannot be empty"), Sample.plainConverter)
  /\ ID Sample.pageNoTitle <> []
  /\ StorageValue Sample.pageNoTitle <> []
  /\ SpaceKey Sample.pageNoTitle <> [].
Proof.
  split; [reflexivity|]. repeat split; discriminate.
Qed.

(** ** Flattened cells are one line *)

Lemma fieldsFrom_fields (s cur : gostring) :
  noSpace cur ->
  List.Forall (fun f => f <> [] /\ noSpace f) (fieldsFrom cur s).
Proof.
  revert cur. induction s as [|c t IH]; intros cur Hcur; simpl.
  - destruct cur as [|x cur']; [constructor|].
    constructor; [|constructor]. split.
    + intros H. apply (f_equal (@length N)) in H.
      rewrite length_rev in H. discriminate.
    + apply List.Forall_rev. exact Hcur.
  - destruct (isSpace c) eqn:Ec.
    + destruct cur as [|x cur'].
      * apply IH. constructor.
      * constructor; [|apply IH; constructor]. split.
        -- intros H. apply (f_equal (@length N)) in H.
           rewrite length_rev in H. discriminate.
        -- apply List.Forall_rev. exact Hcur.
    + apply IH. constructor; assumption.
Qed.

Lemma hasSpaceRun_cons2 (a b : N) (t : gostring) :
  hasSpaceRun (a :: b :: t) = (isSpace a && isSpace b) || hasSpaceRun (b :: t).
Proof. reflexivity. Qed.

Lemma hasSpaceRun_after_field (f t : gostring) :
  noSpace f -> hasSpaceRun (f ++ t) = hasSpaceRun t.
Proof.
  induction 1 as [|a f' Ha Hf IH]; [reflexivity|].
  change ((a :: f') ++ t) with (a :: (f' ++ t)).
  destruct (f' ++ t) as [|b u] eqn:E.
  - destruct f'; [|discriminate]. simpl in E. subst t. reflexivity.
  - cbn [hasSpaceRun]. rewrite Ha. cbn [andb orb]. exact IH.
Qed.

Lemma Join_cons2 (f g : gostring) (rest : list gostring) (sep : gostring) :
  Join (f :: g :: rest) sep = f ++ sep ++ Join (g :: rest) sep.
Proof. reflexivity. Qed.

Lemma Join_fields_one_line (fs : list gostring) :
  List.Forall (fun f => f <> [] /\ noSpace f) fs ->
  hasSpaceRun (Join fs (str " ")) = false
  /\ (forall c, In c (Join fs (str " ")) -> isSpace c = true -> c = 32)
  /\ (fs <> [] -> exists c j, Join fs (str " ") = c :: j /\ isSpace c = false).
Proof.
  induction 1 as [|f rest [Hne Hf] Hrest IH].
  - simpl. repeat split; [intros c [] | intros H; congruence].
  - destruct rest as [|g rest'].
    + cbn [Join]. split; [|split].
      * rewrite <- (app_nil_r f). rewrite hasSpaceRun_after_field by exact Hf.
        reflexivity.
      * intros c Hin Hsp. unfold noSpace in Hf.
        rewrite List.Forall_forall in Hf. rewrite (Hf c Hin) in Hsp. discriminate.
      * intros _. destruct f as [|c j]; [congruence|].
        exists c, j. split; [reflexivity|]. inversion Hf; assumption.
    + rewrite Join_cons2.
      destruct IH as [IHrun [IHchars IHhead]].
      destruct IHhead as [c [j [Hj Hc]]]; [discriminate|].
      split; [|split].
      * rewrite hasSpaceRun_after_field by exact Hf.
        rewrite Hj in IHrun |- *.
        change (str " " ++ c :: j) with (32 :: c :: j).
        rewrite hasSpaceRun_cons2, Hc. exact IHrun.
      * intros x Hin Hsp. apply in_app_or in Hin. destruct Hin as [Hin|Hin].
        -- unfold noSpace in Hf. rewrite List.Forall_forall in Hf.
           rewrite (Hf x Hin) in Hsp. discriminate.
        -- apply in_app_or in Hin. destruct Hin as [Hin|Hin].
           ++ destruct Hin as [<-|[]]. reflexivity.
           ++ apply IHchars; assumption.
      * intros _. destruct f as [|x f']; [congruence|].
        exists x, (f' ++ str " " ++ Join (g :: rest') (str " ")).
        split; [reflexivity|]. inversion Hf; assumption.
Qed.

Lemma Join_Fields_oneLine (content : gostring) :
  oneLine (Join (Fields content) (str " ")).
Proof.
  destruct (Join_fields_one_line (fieldsFrom_fields content (cur := [])
                                    (List.Forall_nil _)))
    as [Hrun [Hchars _]].
  unfold oneLine. fold (Fields content) in *. repeat split.
  - intros Hin. specialize (Hchars 10 Hin eq_refl). discriminate.
  - intros Hin. specialize (Hchars 13 Hin eq_refl). discriminate.
  - exact Hrun.
Qed.

(** C5. The flattened content of a cell holds no line feed, no carriage
    return and no two white-space runes in a row; so does the text put in
    the table for a complex cell. *)
Theorem flattened_cell_is_one_line (ext : External) (p : ConfluencePlugin)
    (cell : Node) :
  oneLine (getCellHTMLContent ext p cell)
  /\ (cellHasComplexContent cell = true -> oneLine (cellText ext p cell)).
Proof.
  assert (Hflat : oneLine (getCellHTMLContent ext p cell)).
  { unfold getCellHTMLContent. apply Join_Fields_oneLine. }
  split; [exact Hflat|].
  intros Hcomplex. unfold cellText. rewrite Hcomplex.
  fold (getCellHTMLContent ext p cell).
  destruct (eqs _ [] || eqs _ (str "&nbsp;")); [|exact Hflat].
  unfold oneLine. repeat split.
  - intros [H|[]]. discriminate.
  - intros [H|[]]. discriminate.
Qed.

Lemma flattened_cell_is_one_line_witness :
  oneLine (cellText Sample.plainExternal Sample.plainPlugin Sample.cellList).
Proof.
  exact (proj2 (flattened_cell_is_one_line Sample.plainExternal
                  Sample.plainPlugin Sample.cellList) eq_refl).
Defined.

(** The two entries of a flattened list stay on one line, each closed by a
    line-break token. *)
Example flattened_list_cell :
  getCellHTMLContent Sample.plainExternal Sample.plainPlugin Sample.cellList
  = str "<br>" ++ bulletMark ++ str "a<br>" ++ bulletMark ++ str "b<br>".
Proof. reflexivity. Qed.

(** ** Admonition macros *)

Lemma Split_no_separator (s : gostring) (sep : N) :
  List.Forall (fun l => ~ In sep l) (Split s sep).
Proof.
  induction s as [|c t IH]; simpl.
  - constructor; [intros [] | constructor].
  - destruct (N.eqb_spec c sep) as [->|Hne].
    + constructor; [intros [] | exact IH].
    + destruct (Split t sep) as [|l ls]; [constructor; [|constructor]|].
      * intros [H|[]]. congruence.
      * inversion IH; subst. constructor; [|assumption].
        intros [H|H]; [congruence | contradiction].
Qed.

Lemma endsOpen_app (a b : gostring) : endsOpen b -> endsOpen (a ++ b).
Proof.
  intros [y [c [-> Hc]]]. exists (a ++ y), c.
  rewrite app_assoc. split; [reflexivity | exact Hc].
Qed.

Lemma TrimSpace_nonempty (s : gostring) : TrimSpace s <> [] -> s <> [].
Proof. intros H ->. apply H. reflexivity. Qed.

Lemma quoted_endsOpen (line : gostring) : ~ In nl line -> endsOpen (quoted line).
Proof.
  intros Hnl. unfold quoted.
  destruct (eqs (TrimSpace line) []) eqn:E.
  - exists [], 62. split; [reflexivity | discriminate].
  - apply eqs_false in E. apply TrimSpace_nonempty in E.
    apply endsOpen_app.
    destruct (exists_last E) as [y [c ->]].
    exists y, c. split; [reflexivity|].
    intros ->. apply Hnl. apply in_or_app. right. left. reflexivity.
Qed.

Lemma Join_endsOpen (q : gostring) (qs : list gostring) :
  List.Forall endsOpen (q :: qs) -> endsOpen (Join (q :: qs) [nl]).
Proof.
  revert q. induction qs as [|q2 rest IH]; intros q H.
  - inversion H; assumption.
  - rewrite Join_cons2. apply endsOpen_app. apply endsOpen_app.
    apply IH. inversion H; assumption.
Qed.

Lemma TrimRight_line_feed (s : gostring) :
  endsOpen s -> TrimRight (s ++ [nl]) [nl] = s.
Proof.
  intros [y [c [-> Hc]]].
  unfold TrimRight, trimRightFunc.
  rewrite !rev_app_distr. simpl.
  destruct (N.eqb_spec c nl) as [Heq|_]; [contradiction|].
  simpl. rewrite rev_involutive. reflexivity.
Qed.

Lemma quoteLines_Join (header : gostring) (line : gostring) (lines : list gostring) :
  header ++ [nl] ++ quoteLines (line :: lines)
  = Join (header :: map quoted (line :: lines)) [nl] ++ [nl].
Proof.
  revert header line. induction lines as [|l2 rest IH]; intros header line.
  - cbn [quoteLines map]. rewrite Join_cons2. cbn [Join].
    unfold quoted. destruct (eqs (TrimSpace line) []); cbn [negb];
      rewrite app_nil_r, <- !app_assoc; reflexivity.
  - change (map quoted (line :: l2 :: rest))
      with (quoted line :: map quoted (l2 :: rest)).
    rewrite Join_cons2. rewrite <- !app_assoc. rewrite <- IH.
    cbn [quoteLines]. unfold quoted at 1.
    destruct (eqs (TrimSpace line) []); cbn [negb]; rewrite <- !app_assoc;
      reflexivity.
Qed.

(** The block quote of a body of two lines or more: the prefix line, then
    every body line behind the marker, a blank line as the bare marker. *)
Lemma handleBlockquoteMacro_lines (ext : External) (n : Node) (emoji : gostring)
    (label : string) :
  let content := convertNestedHTML ext n in
  (1 < length (Split content nl))%nat ->
  handleBlockquoteMacro ext n emoji label
  = Join ((str "> " ++ emoji ++ str " **" ++ str label ++ str ":**")
            :: map quoted (Split content nl)) [nl].
Proof.
  intros content Hlen. unfold handleBlockquoteMacro. fold content.
  destruct (eqs content []) eqn:E.
  - apply eqs_true in E. rewrite E in Hlen. simpl in Hlen. lia.
  - apply Nat.ltb_lt in Hlen. rewrite Hlen.
    pose proof (Split_no_separator content nl) as Hsep.
    destruct (Split content nl) as [|line lines]; [discriminate|].
    rewrite <- !app_assoc.
    replace (str "> " ++ emoji ++ str " **" ++ str label ++ str ":**" ++ [nl]
               ++ quoteLines (line :: lines))
      with ((str "> " ++ emoji ++ str " **" ++ str label ++ str ":**") ++ [nl]
               ++ quoteLines (line :: lines))
      by (rewrite <- !app_assoc; reflexivity).
    rewrite quoteLines_Join. apply TrimRight_line_feed.
    cbn [map]. rewrite Join_cons2. apply endsOpen_app. apply endsOpen_app.
    apply Join_endsOpen.
    change (quoted line :: map quoted lines) with (map quoted (line :: lines)).
    apply List.Forall_map.
    eapply List.Forall_impl; [|exact Hsep].
    intros l Hl. apply quoted_endsOpen. exact Hl.
Qed.

(** C7. For the warning macro whose body is the paragraph "Disk full",
    rendered by the library as that text, the handler writes the block
    quote "> PREFIX **Warning:** Disk full" where PREFIX is the six runes
    U+201A U+00F6 U+2020 U+00D4 U+220F U+00E8 of the source literal, which
    is not the warning sign U+26A0 U+FE0F. *)
Theorem warning_macro_prefix (ext : External) (p : ConfluencePlugin) :
  TrimSpace (RenderNodes ext Sample.paragraphDiskFull) = str "Disk full" ->
  handleMacro ext p Sample.macroWarning =
    (str "> " ++ [0x201A; 0xF6; 0x2020; 0xD4; 0x220F; 0xE8]
       ++ str " **Warning:** Disk full", RenderSuccess)
  /\ fst (handleMacro ext p Sample.macroWarning)
     <> str "> " ++ [0x26A0; 0xFE0F] ++ str " **Warning:** Disk full".
Proof.
  intros Hrender.
  assert (Hout : handleMacro ext p Sample.macroWarning =
            (str "> " ++ emojiWarning ++ str " **Warning:** Disk full",
             RenderSuccess)).
  { unfold handleMacro.
    change (macroName Sample.macroWarning) with (str "warning").
    change (named (str "warning") "info") with false.
    change (named (str "warning") "warning") with true.
    cbn iota. unfold handleBlockquoteMacro.
    assert (Hc : convertNestedHTML ext Sample.macroWarning = str "Disk full").
    { unfold convertNestedHTML.
      change (findRichTextBodyNode Sample.macroWarning)
        with (Some (Sample.el "ac:rich-text-body" [Sample.paragraphDiskFull])).
      cbv iota beta.
      change (Children (Sample.el "ac:rich-text-body" [Sample.paragraphDiskFull]))
        with [Sample.paragraphDiskFull].
      change (convertChildren ext [Sample.paragraphDiskFull])
        with (RenderNodes ext Sample.paragraphDiskFull ++ []).
      rewrite app_nil_r. exact Hrender. }
    rewrite Hc. reflexivity. }
  split.
  - rewrite Hout. reflexivity.
  - rewrite Hout. vm_compute. discriminate.
Qed.

Lemma warning_macro_prefix_witness :
  fst (handleMacro Sample.plainExternal Sample.plainPlugin Sample.macroWarning)
  <> str "> " ++ [0x26A0; 0xFE0F] ++ str " **Warning:** Disk full".
Proof.
  exact (proj2 (warning_macro_prefix Sample.plainExternal Sample.plainPlugin
                  eq_refl)).
Defined.

(** ** The matcher reads a prefix *)

Section MatcherSound.
Context {A : Type}.

Lemma repGreedy_sound (p : N -> bool) (min : nat) (s : gostring)
    (k : gostring -> option A) (v : A) :
  repGreedy p min s k = Some v ->
  exists pre t, s = pre ++ t /\ (min <= length pre)%nat /\ k t = Some v.
Proof.
  revert min. induction s as [|c t IH]; intros min H.
  - simpl in H. destruct min; [|discriminate].
    exists [], []. repeat split; [simpl; lia | exact H].
  - cbn [repGreedy] in H.
    assert (Hstop : match min with O => k (c :: t) | S _ => None end = Some v ->
              exists pre t', c :: t = pre ++ t' /\ (min <= length pre)%nat
                             /\ k t' = Some v).
    { destruct min; [|discriminate]. intros Hk.
      exists [], (c :: t). repeat split; [simpl; lia | exact Hk]. }
    destruct (p c); [|exact (Hstop H)].
    destruct (repGreedy p (Nat.pred min) t k) eqn:Hrec; [|exact (Hstop H)].
    inversion H; subst a.
    destruct (IH _ Hrec) as [pre [t' [Ht [Hlen Hk]]]].
    exists (c :: pre), t'. subst t. repeat split; [simpl; lia | exact Hk].
Qed.

Lemma repLazy_sound (p : N -> bool) (min : nat) (s : gostring)
    (k : gostring -> option A) (v : A) :
  repLazy p min s k = Some v ->
  exists pre t, s = pre ++ t /\ (min <= length pre)%nat /\ k t = Some v.
Proof.
  revert min. induction s as [|c t IH]; intros min H.
  - destruct min; simpl in H; [|discriminate].
    destruct (k []) eqn:Hk; [|discriminate].
    exists [], []. repeat split; [simpl; lia | congruence].
  - assert (Hmore : (if p c then repLazy p (Nat.pred min) t k else None) = Some v ->
              exists pre t', c :: t = pre ++ t' /\ (min <= length pre)%nat
                             /\ k t' = Some v).
    { destruct (p c); [|discriminate]. intros Hrec.
      destruct (IH _ Hrec) as [pre [t' [Ht [Hlen Hk]]]].
      exists (c :: pre), t'. subst t. repeat split; [simpl; lia | exact Hk]. }
    destruct min; cbn [repLazy] in H.
    + destruct (k (c :: t)) eqn:Hk; [|exact (Hmore H)].
      exists [], (c :: t). repeat split; [simpl; lia | congruence].
    + exact (Hmore H).
Qed.

Lemma run_sound (r : regex) :
  groupFree r = true ->
  forall (s : gostring) (c : caps) (k : gostring -> caps -> option A) (v : A),
    run r s c k = Some v ->
    exists pre t, s = pre ++ t /\ (minLen r <= length pre)%nat /\ k t c = Some v.
Proof.
  induction r as [|p|greedy p min|r1 IH1 r2 IH2|r1 IH1 r2 IH2|i r1 IH1];
    intros Hfree s c k v H; cbn [run minLen] in *.
  - exists [], s. repeat split; [simpl; lia | exact H].
  - destruct s as [|x t]; [discriminate|].
    destruct (p x); [|discriminate].
    exists [x], t. repeat split; [simpl; lia | exact H].
  - destruct greedy.
    + apply repGreedy_sound in H. exact H.
    + apply repLazy_sound in H. exact H.
  - cbn [groupFree] in Hfree. apply andb_prop in Hfree. destruct Hfree as [F1 F2].
    destruct (IH1 F1 _ _ _ _ H) as [pre1 [t1 [Hs [Hl1 H1]]]].
    destruct (IH2 F2 _ _ _ _ H1) as [pre2 [t2 [Ht [Hl2 H2]]]].
    exists (pre1 ++ pre2), t2. subst s t1.
    rewrite <- app_assoc, length_app. repeat split; [lia | exact H2].
  - cbn [groupFree] in Hfree. apply andb_prop in Hfree. destruct Hfree as [F1 F2].
    destruct (run r1 s c k) eqn:E1.
    + inversion H; subst a.
      destruct (IH1 F1 _ _ _ _ E1) as [pre [t [Hs [Hl Hk]]]].
      exists pre, t. repeat split; [exact Hs | lia | exact Hk].
    + destruct (IH2 F2 _ _ _ _ H) as [pre [t [Hs [Hl Hk]]]].
      exists pre, t. repeat split; [exact Hs | lia | exact Hk].
  - discriminate.
Qed.

(** A group around a pattern without groups records the prefix it read. *)
Lemma run_group_sound (i : nat) (r : regex) :
  groupFree r = true ->
  forall (s : gostring) (c : caps) (k : gostring -> caps -> option A) (v : A),
    run (RGroup i r) s c k = Some v ->
    exists pre t, s = pre ++ t /\ (minLen r <= length pre)%nat
                  /\ k t (setcap i pre c) = Some v.
Proof.
  intros Hfree s c k v H. cbn [run] in H.
  destruct (run_sound r Hfree _ _ _ H) as [pre [t [Hs [Hl Hk]]]].
  exists pre, t. repeat split; [exact Hs | exact Hl |].
  subst s. rewrite length_app in Hk.
  replace (length pre + length t - length t)%nat with (length pre) in Hk by lia.
  rewrite firstn_app, firstn_all, Nat.sub_diag in Hk. simpl in Hk.
  rewrite app_nil_r in Hk. exact Hk.
Qed.

End MatcherSound.

(** ** The nested-list pass shortens what it changes *)

Lemma listMarker_groupFree : groupFree listMarker = true.
Proof. reflexivity. Qed.

Lemma run_seq {A : Type} (r1 r2 : regex) (s : gostring) (c : caps)
    (k : gostring -> caps -> option A) :
  run (RSeq r1 r2) s c k = run r1 s c (fun t c' => run r2 t c' k).
Proof. reflexivity. Qed.

(** A match of the nested-list pattern reads submatch 1, at least two more
    runes, and submatch 2. *)
Lemma reNestedList_match (s rest : gostring) (c : caps) :
  matchAt reNestedList s = Some (rest, c) ->
  exists g1 mid g2,
    s = g1 ++ mid ++ g2 ++ rest /\ (2 <= length mid)%nat
    /\ c 1%nat = g1 /\ c 2%nat = g2.
Proof.
  unfold matchAt, reNestedList. cbn [rseq]. intros H.
  rewrite run_seq in H.
  apply run_group_sound in H; [|reflexivity].
  destruct H as [g1 [t1 [Hs [_ H]]]].
  rewrite run_seq in H.
  apply run_sound in H; [|reflexivity].
  destruct H as [m1 [t2 [Ht1 [Hm1 H]]]].
  rewrite run_seq in H.
  apply run_sound in H; [|reflexivity].
  destruct H as [m2 [t3 [Ht2 [_ H]]]].
  rewrite run_seq in H.
  apply run_sound in H; [|reflexivity].
  destruct H as [m3 [t4 [Ht3 [Hm3 H]]]].
  apply run_group_sound in H; [|reflexivity].
  destruct H as [g2 [t5 [Ht4 [_ H]]]].
  inversion H; subst rest c. clear H.
  cbn [minLen] in Hm1, Hm3.
  exists g1, (m1 ++ m2 ++ m3), g2. subst s t1 t2 t3 t4.
  repeat split.
  - rewrite <- !app_assoc. reflexivity.
  - rewrite !length_app. lia.
Qed.

Lemma reNestedList_shrinks (s rest : gostring) (c : caps) :
  matchAt reNestedList s = Some (rest, c) ->
  (length (expand [TRef 1; TLit [nl]; TRef 2] c) < length s - length rest)%nat.
Proof.
  intros H. destruct (reNestedList_match _ H) as [g1 [mid [g2 [Hs [Hmid [H1 H2]]]]]].
  unfold expand. simpl. rewrite H1, H2, app_nil_r. subst s.
  rewrite !length_app. simpl. lia.
Qed.

Section ReplaceShrinks.
Variable r : regex.
Variable f : gostring -> caps -> gostring.
Hypothesis shrinks :
  forall s rest c, matchAt r s = Some (rest, c) ->
    (length (f (firstn (length s - length rest) s) c) < length s - length rest)%nat.

Lemma replaceFrom_length (s : gostring) :
  forall skip : nat,
    (skip <= length s)%nat ->
    (length (replaceFrom r f skip s) + skip <= length s)%nat
    /\ (skip = 0%nat ->
        replaceFrom r f 0 s = s
        \/ (length (replaceFrom r f 0 s) < length s)%nat).
Proof.
  induction s as [|x t IH]; intros skip Hskip.
  - simpl in *. split; [lia | left; reflexivity].
  - destruct skip as [|n].
    + cbn [replaceFrom].
      destruct (matchAt r (x :: t)) as [[rest c]|] eqn:Hm.
      * pose proof (shrinks _ Hm) as Hsh.
        destruct (length (x :: t) - length rest)%nat as [|m] eqn:Hn.
        -- lia.
        -- assert (Hm' : (m <= length t)%nat) by (simpl in Hn; lia).
           destruct (IH m Hm') as [IHlen _].
           rewrite length_app. change (length (x :: t)) with (S (length t)).
           split; [lia | intros _; right; lia].
      * destruct (IH 0%nat ltac:(lia)) as [IHlen IHeq]. simpl. split; [lia|].
        intros _. destruct (IHeq eq_refl) as [Heq|Hlt].
        -- left. rewrite Heq. reflexivity.
        -- right. lia.
    + cbn [replaceFrom]. simpl in Hskip.
      destruct (IH n ltac:(lia)) as [IHlen _].
      split; [simpl; lia | discriminate].
Qed.
End ReplaceShrinks.

Lemma nestedListPass_shrinks (markdown : gostring) :
  nestedListPass markdown = markdown
  \/ (length (nestedListPass markdown) < length markdown)%nat.
Proof.
  unfold nestedListPass, ReplaceAllString.
  assert (Hshrinks : forall s rest c, matchAt reNestedList s = Some (rest, c) ->
            (length ((fun (_ : gostring) c => expand [TRef 1; TLit [nl]; TRef 2] c)
                       (firstn (length s - length rest) s) c)
             < length s - length rest)%nat).
  { intros s rest c H. apply reNestedList_shrinks. exact H. }
  destruct (@replaceFrom_length reNestedList _ Hshrinks markdown 0%nat
              ltac:(lia)) as [_ H].
  exact (H eq_refl).
Qed.

Lemma fixNestedListSpacingFuel_fixed (fuel : nat) :
  forall markdown : gostring,
    (length markdown <= fuel)%nat ->
    nestedListPass (fixNestedListSpacingFuel fuel markdown)
    = fixNestedListSpacingFuel fuel markdown.
Proof.
  induction fuel as [|n IH]; intros markdown Hlen; cbn [fixNestedListSpacingFuel].
  - destruct markdown; [reflexivity | simpl in Hlen; lia].
  - destruct (eqs (nestedListPass markdown) markdown) eqn:E; cbn [negb].
    + apply eqs_true in E. rewrite !E. reflexivity.
    + apply eqs_false in E.
      destruct (nestedListPass_shrinks markdown) as [Heq|Hlt]; [contradiction|].
      apply IH. lia.
Qed.

(** Any fuel from the length of the text on gives the same result: the
    recursion of [fixNestedListSpacing] ends before the fuel does. *)
Lemma fixNestedListSpacingFuel_enough (fuel1 fuel2 : nat) (markdown : gostring) :
  (length markdown <= fuel1)%nat -> (length markdown <= fuel2)%nat ->
  fixNestedListSpacingFuel fuel1 markdown = fixNestedListSpacingFuel fuel2 markdown.
Proof.
  revert fuel2 markdown.
  induction fuel1 as [|n IH]; intros fuel2 markdown H1 H2.
  - destruct markdown; [|simpl in H1; lia].
    destruct fuel2; reflexivity.
  - destruct fuel2 as [|m].
    + destruct markdown; [reflexivity | simpl in H2; lia].
    + cbn [fixNestedListSpacingFuel].
      destruct (eqs (nestedListPass markdown) markdown) eqn:E; cbn [negb];
        [reflexivity|].
      apply eqs_false in E.
      destruct (nestedListPass_shrinks markdown) as [Heq|Hlt]; [contradiction|].
      apply IH; lia.
Qed.

(** [fixNestedListSpacing] ends, and ends on a text its pass leaves alone. *)
Lemma fixNestedListSpacing_fixed (markdown : gostring) :
  nestedListPass (fixNestedListSpacing markdown) = fixNestedListSpacing markdown.
Proof. apply fixNestedListSpacingFuel_fixed. lia. Qed.

Lemma fixNestedListSpacing_of_fixed (markdown : gostring) :
  nestedListPass markdown = markdown -> fixNestedListSpacing markdown = markdown.
Proof.
  intros H. unfold fixNestedListSpacing.
  destruct (length markdown); cbn [fixNestedListSpacingFuel];
    rewrite H, eqs_refl; reflexivity.
Qed.

(** ** Trimming *)

Lemma dropWhile_idempotent (p : N -> bool) (s : gostring) :
  dropWhile p (dropWhile p s) = dropWhile p s.
Proof.
  induction s as [|c t IH]; [reflexivity|].
  simpl. destruct (p c) eqn:E; [exact IH|]. simpl. rewrite E. reflexivity.
Qed.

Lemma dropWhile_head (p : N -> bool) (s : gostring) :
  match dropWhile p s with
  | [] => True
  | c :: _ => p c = false
  end.
Proof.
  induction s as [|c t IH]; [exact I|].
  simpl. destruct (p c) eqn:E; [exact IH | exact E].
Qed.

Lemma dropWhile_keeps_last (p : N -> bool) (s : gostring) (c : N) :
  p c = false -> exists u, dropWhile p (s ++ [c]) = u ++ [c].
Proof.
  intros Hc. induction s as [|x t IH]; simpl.
  - rewrite Hc. exists []. reflexivity.
  - destruct (p x); [exact IH|]. exists (x :: t). reflexivity.
Qed.

Lemma TrimSpace_idempotent (s : gostring) : TrimSpace (TrimSpace s) = TrimSpace s.
Proof.
  unfold TrimSpace, trimRightFunc, trimLeftFunc.
  set (x := dropWhile isSpace s).
  assert (Hleft : dropWhile isSpace (rev (dropWhile isSpace (rev x)))
                  = rev (dropWhile isSpace (rev x))).
  { pose proof (dropWhile_head isSpace s) as Hhead. fold x in Hhead.
    destruct x as [|c x']; [reflexivity|].
    simpl rev.
    destruct (dropWhile_keeps_last isSpace (rev x') c Hhead) as [u Hu].
    rewrite Hu, rev_app_distr. simpl. rewrite Hhead. reflexivity. }
  rewrite Hleft, rev_involutive, dropWhile_idempotent. reflexivity.
Qed.

(** ** Normalization *)

(** C2, as the code has it. [fixNestedListSpacing] returns a text that its
    single pass leaves unchanged, and is idempotent; the output of
    [postprocessMarkdown] is already trimmed; and when none of the three
    rewriting passes changes that output, post-processing it again gives it
    back. *)
Theorem normalization_fixed_points (markdown : gostring) :
  nestedListPass (fixNestedListSpacing markdown) = fixNestedListSpacing markdown
  /\ fixNestedListSpacing (fixNestedListSpacing markdown)
     = fixNestedListSpacing markdown
  /\ TrimSpace (postprocessMarkdown markdown) = postprocessMarkdown markdown
  /\ (collapseNewlines (postprocessMarkdown markdown) = postprocessMarkdown markdown ->
      nestedListPass (postprocessMarkdown markdown) = postprocessMarkdown markdown ->
      fixMarkdownLinks (postprocessMarkdown markdown) = postprocessMarkdown markdown ->
      postprocessMarkdown (postprocessMarkdown markdown)
      = postprocessMarkdown markdown).
Proof.
  split; [|split; [|split]].
  - apply fixNestedListSpacing_fixed.
  - apply fixNestedListSpacing_of_fixed. apply fixNestedListSpacing_fixed.
  - unfold postprocessMarkdown. apply TrimSpace_idempotent.
  - intros H1 H2 H3.
    set (out := postprocessMarkdown markdown) in *.
    unfold postprocessMarkdown at 1.
    rewrite H1, (fixNestedListSpacing_of_fixed H2), H3.
    unfold out, postprocessMarkdown. apply TrimSpace_idempotent.
Qed.

Lemma normalization_fixed_points_witness :
  postprocessMarkdown
    (postprocessMarkdown (str "x" ++ [nl] ++ str "- a" ++ [nl; nl] ++ str "  - b"
                            ++ [nl; nl; nl; nl] ++ str "c "))
  = str "x" ++ [nl] ++ str "- a" ++ [nl] ++ str "  - b" ++ [nl; nl] ++ str "c".
Proof.
  refine (eq_trans
    (proj2 (proj2 (proj2 (normalization_fixed_points
       (str "x" ++ [nl] ++ str "- a" ++ [nl; nl] ++ str "  - b"
          ++ [nl; nl; nl; nl] ++ str "c "))))
       _ _ _) _); vm_compute; reflexivity.
Defined.

(** C2, as stated, fails. For the text made of a line feed, an empty list
    item, a blank line, a line holding one space, a blank line and an
    indented item, the nested-list pass joins three line feeds after the
    newline collapse has run: the result is "-", three line feeds, " - x",
    and normalizing it again collapses them to two. *)
Lemma postprocessMarkdown_not_idempotent :
  postprocessMarkdown Sample.markdownEmptyItem
    = str "-" ++ [nl; nl; nl] ++ str " - x"
  /\ postprocessMarkdown (postprocessMarkdown Sample.markdownEmptyItem)
     = str "-" ++ [nl; nl] ++ str " - x"
  /\ postprocessMarkdown (postprocessMarkdown Sample.markdownEmptyItem)
     <> postprocessMarkdown Sample.markdownEmptyItem.
Proof.
  split; [vm_compute; reflexivity|].
  split; [vm_compute; reflexivity|].
  vm_compute. discriminate.
Qed.

(* ================================================================== *)
(** * Part III. Further properties of the code                          *)
(* ================================================================== *)

(** ** Tables: what is kept, padded and written *)

Section TableOutput.
Variable ext : External.
Variable p : ConfluencePlugin.

Lemma rowCells_cells (tr : Node) :
  rowCells ext p tr = map (cellText ext p) (cellsOf tr).
Proof.
  unfold rowCells, scanRow, cellsOf. rewrite rowLoop_closed_form. reflexivity.
Qed.

Lemma rowIsHeader_no_td (tr : Node) :
  rowIsHeader ext p tr = negb (existsb (isElement "td") (Children tr)).
Proof.
  unfold rowIsHeader, scanRow. rewrite rowLoop_closed_form.
  simpl. apply andb_diag.
Qed.

Lemma collectRows_kept (trs : list Node) :
  collectRows ext p trs =
    map (fun tr => (rowCells ext p tr, rowIsHeader ext p tr)) (keptRows trs).
Proof.
  induction trs as [|tr rest IH]; [reflexivity|].
  cbn [collectRows keptRows List.filter]. fold (keptRows rest).
  destruct (isElement "tr" tr); cbn [andb]; [|exact IH].
  rewrite rowCells_cells at 1.
  destruct (cellsOf tr) as [|c cs] eqn:Ec; cbn [map]; [exact IH|].
  rewrite IH. cbn [map]. rewrite rowCells_cells, Ec. reflexivity.
Qed.

Lemma cellText_nonempty (cell : Node) : cellText ext p cell <> [].
Proof.
  unfold cellText.
  match goal with
  | |- (if eqs ?c [] || _ then _ else _) <> _ =>
      destruct (eqs c []) eqn:E; cbn [orb]; [discriminate|];
      destruct (eqs c (str "&nbsp;")); [discriminate|];
      apply eqs_false in E; exact E
  end.
Qed.

(** X1. The row lines of a handled table are the kept rows of its body in
    document order, each the texts of its th and td cells followed by
    single-space cells up to the width of the widest row; that width is at
    least one and no cell is the empty string. *)
Theorem handled_table_rows (n : Node) (collected : list (list gostring * bool)) :
  tableRows ext p n = Some collected ->
  exists tbody,
    findTbody n = Some tbody
    /\ let m := maxCols (map fst collected) in
       rowsOf (tableLines collected) =
         map (fun tr =>
                map (cellText ext p) (cellsOf tr)
                ++ repeat (str " ") (m - length (cellsOf tr)))
             (keptRows (Children tbody))
       /\ List.Forall (fun row => length row = m) (rowsOf (tableLines collected))
       /\ List.Forall (List.Forall (fun cell => cell <> []))
            (rowsOf (tableLines collected))
       /\ (1 <= m)%nat.
Proof.
  unfold tableRows. destruct (findTbody n) as [tbody|]; [|discriminate].
  intros H. exists tbody. split; [reflexivity|].
  assert (Hc : collected = collectRows ext p (Children tbody)
               /\ collected <> []).
  { destruct (collectRows ext p (Children tbody)); [discriminate|].
    inversion H. split; [reflexivity | discriminate]. }
  clear H. destruct Hc as [Hc Hne]. rewrite collectRows_kept in Hc.
  set (m := maxCols (map fst collected)). cbv zeta.
  assert (Hrows : rowsOf (tableLines collected) = map (padRow m) (map fst collected)).
  { destruct collected as [|c cs]; [reflexivity|].
    rewrite tableLines_shape. fold m. unfold rowsOf. cbn [flat_map app].
    rewrite flat_map_app.
    assert (Hsep : forall b : bool,
              flat_map (fun l => match l with RowLine cells => [cells] | _ => [] end)
                (if b then [SeparatorLine m] else []) = []).
    { intros []; reflexivity. }
    rewrite Hsep. cbn [app map]. f_equal.
    induction (map (padRow m) (map fst cs)) as [|r rs IHr]; [reflexivity|].
    cbn [map flat_map app]. rewrite IHr. reflexivity. }
  assert (Hle : List.Forall (fun row => (length row <= m)%nat) (map fst collected)).
  { apply (maxCols_from_ge (map fst collected) 0). }
  assert (Hkept : List.Forall (fun tr => cellsOf tr <> []) (keptRows (Children tbody))).
  { unfold keptRows. apply List.Forall_forall. intros tr Hin.
    apply List.filter_In in Hin. destruct Hin as [_ Hin].
    apply andb_prop in Hin. destruct Hin as [_ Hin].
    destruct (cellsOf tr); [discriminate | discriminate]. }
  split; [|split; [|split]].
  - rewrite Hrows, Hc, !map_map. apply map_ext. intros tr. cbn [fst].
    unfold padRow. rewrite rowCells_cells, length_map. reflexivity.
  - rewrite Hrows. apply List.Forall_map.
    eapply List.Forall_impl; [|exact Hle].
    intros row Hrow. apply padRow_length. exact Hrow.
  - rewrite Hrows, Hc, !map_map. apply List.Forall_map.
    apply List.Forall_forall. intros tr _. cbn [fst]. unfold padRow.
    apply List.Forall_app. split.
    + rewrite rowCells_cells. apply List.Forall_map.
      apply List.Forall_forall. intros cell _. apply cellText_nonempty.
    + apply List.Forall_forall. intros x Hx. apply repeat_spec in Hx.
      subst x. discriminate.
  - rewrite Hc in Hle. destruct (keptRows (Children tbody)) as [|tr trs].
    + subst collected. contradiction.
    + inversion Hle as [|r rs Hr _]; subst. cbn [fst] in Hr.
      rewrite rowCells_cells, length_map in Hr.
      inversion Hkept as [|? ? Hcells _]; subst.
      destruct (cellsOf tr); [congruence | simpl in Hr; lia].
Qed.

(** X2. A handled table has at most one separator line. It has one exactly
    when row 0 is a header row or no row of the table is a header row, and
    then the separator is the second line written and has one dash group
    per column. *)
Theorem handled_table_separator (n : Node) (collected : list (list gostring * bool)) :
  tableRows ext p n = Some collected ->
  let firstIsHeader := hd false (map snd collected) in
  let anyHeader := existsb (fun b => b) (map snd collected) in
  (separatorCount (tableLines collected) <= 1)%nat
  /\ (separatorCount (tableLines collected) = 1%nat
      <-> firstIsHeader || negb anyHeader = true)
  /\ (firstIsHeader || negb anyHeader = true ->
      nth_error (tableLines collected) 1
      = Some (SeparatorLine (maxCols (map fst collected))))
  /\ writeLine (SeparatorLine (maxCols (map fst collected)))
     = str "|" ++ Repeat (str "---|") (maxCols (map fst collected)) ++ [nl].
Proof.
  unfold tableRows. destruct (findTbody n) as [tbody|]; [|discriminate].
  destruct (collectRows ext p (Children tbody)) as [|c cs]; [discriminate|].
  intros H. inversion H; subst collected. clear H. cbv zeta.
  destruct (tableLines_separator c cs) as [Hcount Hpos].
  change (hd false (map snd (c :: cs))) with (snd c).
  rewrite Hcount.
  destruct (snd c || negb (existsb (fun b => b) (map snd (c :: cs)))) eqn:E.
  - repeat split; try lia; try reflexivity. intros _. apply Hpos. reflexivity.
  - repeat split; try lia; try discriminate; try reflexivity.
Qed.

(** X3. [handleTable] leaves a table to the next renderer, writing nothing,
    exactly when the table has no tbody child or no tr of the first tbody
    has a th or td child; otherwise it returns Success. *)
Theorem table_fallback (n : Node) :
  (snd (handleTable ext p n) = RenderTryNext
   <-> match findTbody n with
       | None => True
       | Some tbody => keptRows (Children tbody) = []
       end)
  /\ (snd (handleTable ext p n) = RenderTryNext -> fst (handleTable ext p n) = [])
  /\ (snd (handleTable ext p n) = RenderTryNext
      \/ snd (handleTable ext p n) = RenderSuccess).
Proof.
  unfold handleTable, tableRows.
  destruct (findTbody n) as [tbody|]; [|repeat split; auto].
  rewrite collectRows_kept.
  destruct (keptRows (Children tbody)) as [|tr trs]; cbn [map snd fst].
  - repeat split; auto.
  - repeat split; try discriminate; auto.
Qed.

End TableOutput.

Lemma handled_table_rows_witness :
  List.Forall (fun row => length row = 2%nat)
    (rowsOf (tableLines [([str "k"; str "v"], true); ([str "x"], false)])).
Proof.
  destruct (handled_table_rows Sample.plainExternal Sample.plainPlugin
              Sample.tableRagged eq_refl) as [tbody [_ [_ [H _]]]].
  exact H.
Defined.

Lemma handled_table_separator_witness :
  nth_error (tableLines [([str "k"; str "v"], true); ([str "x"], false)]) 1
  = Some (SeparatorLine 2).
Proof.
  exact (proj1 (proj2 (proj2 (handled_table_separator Sample.plainExternal
                                Sample.plainPlugin Sample.tableRagged eq_refl)))
           eq_refl).
Defined.

(** ** Macros: which ones let dispatch go on *)

(** X4. [handleMacro] returns TryNext for one kind of node only: a toc macro
    without an ac:parameter child. Every other macro, known or not, ends the
    dispatch with Success. *)
Theorem macro_status (ext : External) (p : ConfluencePlugin) (n : Node) :
  snd (handleMacro ext p n) = RenderTryNext
  <-> macroName n = str "toc"
      /\ existsb (isElement "ac:parameter") (Children n) = false.
Proof.
  unfold handleMacro. set (name := macroName n).
  assert (Hother : forall nm : string,
            named name nm = true -> str nm <> str "toc" ->
            (RenderSuccess = RenderTryNext
             <-> name = str "toc"
                 /\ existsb (isElement "ac:parameter") (Children n) = false)).
  { intros nm Hnm Hne. apply eqs_true in Hnm. split; [discriminate|].
    intros [Hn _]. congruence. }
  repeat match goal with
  | |- context [if named name ?nm then _ else _] =>
      lazymatch nm with
      | "toc"%string => fail
      | _ => destruct (named name nm) eqn:?;
             [ cbn [snd]; apply (Hother nm); [assumption | vm_compute; discriminate] | ]
      end
  end.
  destruct (named name "toc") eqn:Etoc.
  - apply eqs_true in Etoc. unfold handleTocMacro.
    destruct (existsb (isElement "ac:parameter") (Children n)); cbn.
    + split; [discriminate | intros [_ H]; discriminate].
    + split; [intros _; split; [exact Etoc | reflexivity] | reflexivity].
  - repeat match goal with
    | |- context [if named name ?nm then _ else _] =>
        destruct (named name nm) eqn:?;
        [ cbn [snd]; apply (Hother nm); [assumption | vm_compute; discriminate] | ]
    end.
    cbn [snd]. apply eqs_false in Etoc. split; [discriminate|].
    intros [Hn _]. contradiction.
Qed.

(** ** Block quotes: every line is quoted *)

Lemma Split_without_separator (s : gostring) (sep : N) :
  ~ In sep s -> Split s sep = [s].
Proof.
  induction s as [|c t IH]; intros H; [reflexivity|].
  simpl. destruct (N.eqb_spec c sep) as [->|Hne].
  - exfalso. apply H. left. reflexivity.
  - rewrite IH; [reflexivity|]. intros Hin. apply H. right. exact Hin.
Qed.

Lemma Split_nonempty (s : gostring) (sep : N) : Split s sep <> [].
Proof.
  destruct s as [|c t]; simpl; [discriminate|].
  destruct (c =? sep); [discriminate|].
  destruct (Split t sep); discriminate.
Qed.

Lemma Split_at_separator (a b : gostring) (sep : N) :
  ~ In sep a -> Split (a ++ sep :: b) sep = a :: Split b sep.
Proof.
  induction a as [|c t IH]; intros H.
  - simpl. rewrite N.eqb_refl. reflexivity.
  - simpl. destruct (N.eqb_spec c sep) as [->|Hne].
    + exfalso. apply H. left. reflexivity.
    + rewrite IH; [reflexivity|]. intros Hin. apply H. right. exact Hin.
Qed.

(** Splitting at the separator undoes joining with it. *)
Lemma Split_Join (l : gostring) (ls : list gostring) (sep : N) :
  List.Forall (fun x => ~ In sep x) (l :: ls) ->
  Split (Join (l :: ls) [sep]) sep = l :: ls.
Proof.
  revert l. induction ls as [|l2 rest IH]; intros l H.
  - cbn [Join]. apply Split_without_separator. inversion H; assumption.
  - rewrite Join_cons2. cbn [app].
    inversion H as [|? ? Hl Hrest]; subst.
    rewrite Split_at_separator by exact Hl. rewrite IH by exact Hrest.
    reflexivity.
Qed.

Lemma Split_single_line (s : gostring) (sep : N) :
  (length (Split s sep) <= 1)%nat -> ~ In sep s.
Proof.
  induction s as [|c t IH]; intros Hlen; [intros []|].
  simpl in Hlen. destruct (N.eqb_spec c sep) as [->|Hne].
  - simpl in Hlen. pose proof (Split_nonempty t sep).
    destruct (Split t sep); [contradiction | simpl in Hlen; lia].
  - intros [Hin|Hin]; [congruence|]. revert Hin. apply IH.
    destruct (Split t sep); simpl in *; lia.
Qed.

Lemma not_in_app (x : N) (a b : gostring) :
  ~ In x a -> ~ In x b -> ~ In x (a ++ b).
Proof.
  intros Ha Hb Hin. apply in_app_or in Hin. destruct Hin; contradiction.
Qed.

Lemma quoted_no_line_feed (line : gostring) : ~ In nl line -> ~ In nl (quoted line).
Proof.
  intros H. unfold quoted. destruct (eqs (TrimSpace line) []).
  - intros [Hin|[]]. discriminate.
  - intros [Hin|[Hin|Hin]]; [discriminate | discriminate | contradiction].
Qed.

(** X5. Whatever the body of an admonition macro, every line of the block
    quote written for it begins with the quote marker: the prefix line, the
    body lines and the blank lines between them. *)
Theorem blockquote_every_line_quoted (ext : External) (n : Node)
    (emoji : gostring) (label : string) :
  ~ In nl emoji -> ~ In nl (str label) ->
  List.Forall (fun line => exists rest, line = 62 :: rest)
    (Split (handleBlockquoteMacro ext n emoji label) nl).
Proof.
  intros Hemoji Hlabel.
  set (header := str "> " ++ emoji ++ str " **" ++ str label ++ str ":**").
  assert (Hheader : ~ In nl header).
  { unfold header. repeat apply not_in_app; try assumption;
      intros Hin; vm_compute in Hin;
      repeat (destruct Hin as [Hin|Hin]; [discriminate|]); destruct Hin. }
  destruct (Nat.ltb_spec 1 (length (Split (convertNestedHTML ext n) nl)))
    as [Hmany|Hone].
  - rewrite handleBlockquoteMacro_lines by exact Hmany. fold header.
    pose proof (Split_no_separator (convertNestedHTML ext n) nl) as Hsep.
    rewrite Split_Join.
    + constructor; [exists (str " " ++ emoji ++ str " **" ++ str label ++ str ":**");
                    reflexivity|].
      apply List.Forall_map. apply List.Forall_forall. intros line _.
      unfold quoted. destruct (eqs (TrimSpace line) []); eexists; reflexivity.
    + constructor; [exact Hheader|].
      apply List.Forall_map. eapply List.Forall_impl; [|exact Hsep].
      intros line Hline. apply quoted_no_line_feed. exact Hline.
  - unfold handleBlockquoteMacro. fold header.
    assert (Hcontent : ~ In nl (convertNestedHTML ext n))
      by (apply Split_single_line; exact Hone).
    apply Nat.ltb_ge in Hone. rewrite Hone.
    destruct (eqs (convertNestedHTML ext n) []).
    + rewrite Split_without_separator by exact Hheader.
      constructor; [|constructor]. eexists. reflexivity.
    + rewrite Split_without_separator.
      * constructor; [|constructor]. eexists. reflexivity.
      * repeat apply not_in_app; try assumption;
          intros Hin; vm_compute in Hin;
          repeat (destruct Hin as [Hin|Hin]; [discriminate|]); destruct Hin.
Qed.

Lemma blockquote_every_line_quoted_witness :
  List.Forall (fun line => exists rest, line = 62 :: rest)
    (Split (handleBlockquoteMacro Sample.plainExternal Sample.macroWarning
              emojiWarning "Warning") nl).
Proof.
  apply blockquote_every_line_quoted.
  - vm_compute. intros H. repeat (destruct H as [H|H]; [discriminate|]). exact H.
  - vm_compute. intros H. repeat (destruct H as [H|H]; [discriminate|]). exact H.
Defined.

(** ** CDATA: escaping and its inverse *)

Lemma replaceSub_one_rune (c : N) (new s : gostring) :
  replaceSub [c] new 0 s = flat_map (fun x => if c =? x then new else [x]) s.
Proof.
  induction s as [|x t IH]; [reflexivity|].
  cbn [replaceSub stripPrefix flat_map length Nat.pred].
  destruct (c =? x); cbn [app]; rewrite IH; reflexivity.
Qed.

Lemma flat_map_compose (f g : N -> gostring) (s : gostring) :
  flat_map f (flat_map g s) = flat_map (fun x => flat_map f (g x)) s.
Proof.
  induction s as [|x t IH]; [reflexivity|].
  cbn [flat_map]. rewrite flat_map_app, IH. reflexivity.
Qed.

Lemma escapeCDATA_by_rune (content : gostring) :
  escapeCDATA content = flat_map escaped content.
Proof.
  unfold escapeCDATA, ReplaceAll.
  change (str "&") with [38]. change (str "<") with [60]. change (str ">") with [62].
  rewrite !replaceSub_one_rune, !flat_map_compose.
  apply flat_map_ext. intros x. unfold escaped.
  destruct (N.eqb_spec x 38) as [->|H38]; [reflexivity|].
  destruct (N.eqb_spec x 60) as [->|H60]; [reflexivity|].
  destruct (N.eqb_spec x 62) as [->|H62]; [reflexivity|].
  cbn [flat_map app].
  destruct (N.eqb_spec 38 x) as [E|_]; [congruence|]. cbn [flat_map app].
  destruct (N.eqb_spec 60 x) as [E|_]; [congruence|]. cbn [flat_map app].
  destruct (N.eqb_spec 62 x) as [E|_]; [congruence|]. reflexivity.
Qed.

(** X6. The text that [preprocessCDATA] puts inside the pre element holds
    no angle bracket, and an ampersand only at the start of one of the
    three entities it writes. *)
Theorem escapeCDATA_is_markup_free (content : gostring) :
  ~ In 60 (escapeCDATA content) /\ ~ In 62 (escapeCDATA content)
  /\ (forall pre post, escapeCDATA content = pre ++ 38 :: post ->
      exists rest, post = str "amp;" ++ rest \/ post = str "lt;" ++ rest
                   \/ post = str "gt;" ++ rest).
Proof.
  rewrite escapeCDATA_by_rune.
  assert (Hblock : forall x c, In c (escaped x) -> c <> 60 /\ c <> 62).
  { intros x c Hin. unfold escaped in Hin.
    destruct (x =? 38);
      [|destruct (x =? 60) eqn:E60; [|destruct (x =? 62) eqn:E62]].
    1-3: vm_compute in Hin;
         repeat (destruct Hin as [<-|Hin]; [split; discriminate|]);
         destruct Hin.
    destruct Hin as [<-|[]]. apply N.eqb_neq in E60, E62. split; assumption. }
  split; [|split].
  - intros Hin. apply in_flat_map in Hin. destruct Hin as [x [_ Hin]].
    apply Hblock in Hin. tauto.
  - intros Hin. apply in_flat_map in Hin. destruct Hin as [x [_ Hin]].
    apply Hblock in Hin. tauto.
  - induction content as [|x t IH]; intros pre post Heq.
    + destruct pre; discriminate.
    + cbn [flat_map] in Heq. unfold escaped at 1 in Heq.
      assert (Hshift : forall (w : gostring) (a : N),
                ~ In 38 w ->
                forall pre post, w ++ flat_map escaped t = pre ++ 38 :: post ->
                exists pre', flat_map escaped t = pre' ++ 38 :: post).
      { clear. induction w as [|y w IHw]; intros a Hw pre post Heq.
        - exists pre. exact Heq.
        - destruct pre as [|z pre].
          + simpl in Heq. inversion Heq. subst y. exfalso. apply Hw. left.
            reflexivity.
          + simpl in Heq. inversion Heq. apply (IHw a) with (pre := pre).
            * intros Hin. apply Hw. right. exact Hin.
            * assumption. }
      assert (Hentity : forall (w : gostring),
                ~ In 38 w ->
                (exists rest, w ++ flat_map escaped t = str "amp;" ++ rest
                              \/ w ++ flat_map escaped t = str "lt;" ++ rest
                              \/ w ++ flat_map escaped t = str "gt;" ++ rest) ->
                38 :: w ++ flat_map escaped t = pre ++ 38 :: post ->
                exists rest, post = str "amp;" ++ rest \/ post = str "lt;" ++ rest
                             \/ post = str "gt;" ++ rest).
      { intros w Hw Hrest Heq'. destruct pre as [|z pre].
        - simpl in Heq'. inversion Heq'. subst post. exact Hrest.
        - simpl in Heq'. inversion Heq'. subst z.
          destruct (Hshift w 0 Hw pre post ltac:(assumption)) as [pre' Hpre'].
          eapply IH. exact Hpre'. }
      destruct (N.eqb_spec x 38) as [->|H38].
      * apply (Hentity (str "amp;")).
        -- vm_compute. intros H. repeat (destruct H as [H|H]; [discriminate|]).
           exact H.
        -- eexists. left. reflexivity.
        -- exact Heq.
      * destruct (N.eqb_spec x 60) as [->|H60].
        -- apply (Hentity (str "lt;")).
           ++ vm_compute. intros H. repeat (destruct H as [H|H]; [discriminate|]).
              exact H.
           ++ eexists. right. left. reflexivity.
           ++ exact Heq.
        -- destruct (N.eqb_spec x 62) as [->|H62].
           ++ apply (Hentity (str "gt;")).
              ** vm_compute. intros H.
                 repeat (destruct H as [H|H]; [discriminate|]). exact H.
              ** eexists. right. right. reflexivity.
              ** exact Heq.
           ++ destruct (Hshift [x] 0) with (pre := pre) (post := post)
                as [pre' Hpre'].
              ** intros [H|[]]. congruence.
              ** exact Heq.
              ** eapply IH. exact Hpre'.
Qed.







Lemma escapeCDATA_is_markup_free_witness :
  exists rest, str "amp;b" = str "amp;" ++ rest \/ str "amp;b" = str "lt;" ++ rest
               \/ str "amp;b" = str "gt;" ++ rest.
Proof.
  exact (proj2 (proj2 (escapeCDATA_is_markup_free (str "a&b")))
           (str "a") (str "amp;b") eq_refl).
Defined.

(** ** Passes that find nothing change nothing *)

Lemma replaceFrom_without_match (r : regex) (f : gostring -> caps -> gostring)
    (s : gostring) :
  (forall pre t, s = pre ++ t -> matchAt r t = None) ->
  replaceFrom r f 0 s = s.
Proof.
  induction s as [|x t IH]; intros H; [reflexivity|].
  cbn [replaceFrom]. rewrite (H [] (x :: t) eq_refl).
  rewrite IH; [reflexivity|].
  intros pre u Hu. apply (H (x :: pre)). rewrite Hu. reflexivity.
Qed.

(** A pattern that opens with a class of runes finds nothing in a text
    without such a rune. *)
Lemma replaceFrom_first_rune (r : regex) (f : gostring -> caps -> gostring)
    (q : N -> bool) (s : gostring) :
  matchAt r [] = None ->
  (forall x t, q x = false -> matchAt r (x :: t) = None) ->
  List.Forall (fun x => q x = false) s ->
  replaceFrom r f 0 s = s.
Proof.
  intros Hnil Hhead Hs. apply replaceFrom_without_match.
  intros pre t Heq. destruct t as [|x t]; [exact Hnil|].
  apply Hhead. rewrite List.Forall_forall in Hs. apply Hs.
  rewrite Heq. apply in_or_app. right. left. reflexivity.
Qed.

Lemma collapseNewlines_without_line_feed (s : gostring) :
  ~ In nl s -> collapseNewlines s = s.
Proof.
  intros H. unfold collapseNewlines, ReplaceAllString.
  apply replaceFrom_first_rune with (q := chr nl).
  - reflexivity.
  - intros x t Hx. unfold matchAt, reNewlines. cbn [run repGreedy].
    rewrite Hx. reflexivity.
  - apply List.Forall_forall. intros x Hx. unfold chr.
    apply N.eqb_neq. intros E. subst x. contradiction.
Qed.

Lemma nestedListPass_without_line_feed (s : gostring) :
  ~ In nl s -> nestedListPass s = s.
Proof.
  intros H. unfold nestedListPass, ReplaceAllString.
  apply replaceFrom_first_rune with (q := chr nl).
  - reflexivity.
  - intros x t Hx. unfold matchAt, reNestedList. cbn [rseq].
    rewrite run_seq. cbn [run]. rewrite Hx. reflexivity.
  - apply List.Forall_forall. intros x Hx. unfold chr.
    apply N.eqb_neq. intros E. subst x. contradiction.
Qed.

Lemma fixMarkdownLinks_without_bracket (s : gostring) :
  ~ In 91 s -> fixMarkdownLinks s = s.
Proof.
  intros H. unfold fixMarkdownLinks, ReplaceAllString.
  apply replaceFrom_first_rune with (q := chr 91).
  - reflexivity.
  - intros x t Hx. unfold matchAt, reConfLink. cbn [rseq].
    rewrite run_seq. cbn [run]. rewrite Hx. reflexivity.
  - apply List.Forall_forall. intros x Hx. unfold chr.
    apply N.eqb_neq. intros E. subst x. contradiction.
Qed.

(** X8. On a text of one line without an opening square bracket the
    normalizer only trims: the newline collapse, the nested-list pass and
    the link rewrite leave it as it is. *)
Theorem postprocessMarkdown_of_plain_line (markdown : gostring) :
  ~ In nl markdown -> ~ In 91 markdown ->
  postprocessMarkdown markdown = TrimSpace markdown.
Proof.
  intros Hnl Hbr. unfold postprocessMarkdown.
  rewrite collapseNewlines_without_line_feed by exact Hnl.
  rewrite fixNestedListSpacing_of_fixed
    by (apply nestedListPass_without_line_feed; exact Hnl).
  rewrite fixMarkdownLinks_without_bracket by exact Hbr.
  reflexivity.
Qed.

Lemma postprocessMarkdown_of_plain_line_witness :
  postprocessMarkdown (str "  Hello, world.  ") = str "Hello, world.".
Proof.
  refine (eq_trans (postprocessMarkdown_of_plain_line (str "  Hello, world.  ") _ _) _).
  - vm_compute. intros H. repeat (destruct H as [H|H]; [discriminate|]). exact H.
  - vm_compute. intros H. repeat (destruct H as [H|H]; [discriminate|]). exact H.
  - reflexivity.
Defined.

(** ** Markup without a CDATA section *)

Lemma run_literal {A : Type} (w : gostring) :
  forall (t : gostring) (c : caps) (k : gostring -> caps -> option A) (v : A),
    run (rseq (map (fun x => RChar (chr x)) w)) t c k = Some v ->
    exists rest, stripPrefix w t = Some rest /\ k rest c = Some v.
Proof.
  induction w as [|x w IH]; intros t c k v H.
  - cbn in H. exists t. split; [destruct t; reflexivity | exact H].
  - destruct w as [|y w].
    + cbn in H. destruct t as [|z t]; [discriminate|].
      unfold chr in H. cbn [stripPrefix].
      destruct (x =? z); [|discriminate].
      exists t. split; [reflexivity | exact H].
    + change (rseq (map (fun x => RChar (chr x)) (x :: y :: w)))
        with (RSeq (RChar (chr x)) (rseq (map (fun x => RChar (chr x)) (y :: w))))
        in H.
      rewrite run_seq in H. cbn [run] in H.
      destruct t as [|z t]; [discriminate|].
      unfold chr at 1 in H. cbn [stripPrefix].
      destruct (x =? z); [|discriminate].
      apply IH in H. exact H.
Qed.

Lemma afterFirst_none (sub s : gostring) :
  afterFirst sub s = None ->
  forall pre t, s = pre ++ t -> stripPrefix sub t = None.
Proof.
  induction s as [|x s' IH]; intros H pre t Heq.
  - destruct pre; [|discriminate]. simpl in Heq. subst t.
    simpl in H. destruct (stripPrefix sub []); [discriminate | reflexivity].
  - cbn [afterFirst] in H.
    destruct (stripPrefix sub (x :: s')) eqn:E; [discriminate|].
    destruct pre as [|z pre].
    + simpl in Heq. subst t. exact E.
    + simpl in Heq. inversion Heq. subst z. apply (IH H pre). assumption.
Qed.

(** X9. Markup that holds no CDATA opening is passed through the CDATA
    pre-pass unchanged. *)
Theorem preprocessCDATA_without_section (html : gostring) :
  afterFirst (str "<![CDATA[") html = None ->
  preprocessCDATA html = html.
Proof.
  intros H. unfold preprocessCDATA, ReplaceAllStringFunc.
  apply replaceFrom_without_match. intros pre t Heq.
  pose proof (afterFirst_none _ H pre t Heq) as Hno.
  destruct (matchAt reCDATA t) as [[rest c]|] eqn:E; [|reflexivity].
  exfalso. unfold matchAt, reCDATA in E. cbn [rseq] in E.
  rewrite run_seq in E. unfold lit at 1 in E.
  apply run_literal in E. destruct E as [rest' [E _]].
  rewrite Hno in E. discriminate.
Qed.

Lemma preprocessCDATA_without_section_witness :
  preprocessCDATA (str "<p>a &lt; b</p>") = str "<p>a &lt; b</p>".
Proof.
  exact (preprocessCDATA_without_section (str "<p>a &lt; b</p>") eq_refl).
Defined.

(** ** The newline collapse *)

Lemma repGreedy_takes_all {A : Type} (q : N -> bool) (v : gostring -> A)
    (s : gostring) :
  forall min : nat,
    repGreedy q min s (fun t => Some (v t)) =
      if (min <=? length s - length (dropWhile q s))%nat
      then Some (v (dropWhile q s)) else None.
Proof.
  induction s as [|x t IH]; intros min.
  - destruct min; reflexivity.
  - cbn [repGreedy dropWhile]. destruct (q x) eqn:Eq.
    + rewrite IH.
      assert (Hlen : (length (dropWhile q t) <= length t)%nat).
      { clear. induction t as [|y t IHt]; simpl; [lia|].
        destruct (q y); simpl; lia. }
      change (length (x :: t)) with (S (length t)).
      destruct (Nat.leb_spec (Nat.pred min) (length t - length (dropWhile q t)))
        as [Hle|Hgt].
      * destruct (Nat.leb_spec min (S (length t) - length (dropWhile q t)));
          [reflexivity | lia].
      * destruct (Nat.leb_spec min (S (length t) - length (dropWhile q t)));
          [lia|]. destruct min; [lia | reflexivity].
    + rewrite Nat.sub_diag. destruct min; reflexivity.
Qed.

Lemma leadingLineFeeds_dropWhile (s : gostring) :
  (length s - length (dropWhile (chr nl) s))%nat = leadingLineFeeds s
  /\ (length (dropWhile (chr nl) s) <= length s)%nat
  /\ leadingLineFeeds (dropWhile (chr nl) s) = 0%nat.
Proof.
  induction s as [|x t [IH1 [IH2 IH3]]]; [repeat split; reflexivity|].
  cbn [dropWhile leadingLineFeeds]. unfold chr at 1 3 5.
  rewrite (N.eqb_sym nl x).
  destruct (x =? nl) eqn:E.
  - change (length (x :: t)) with (S (length t)).
    repeat split; [lia | lia | exact IH3].
  - rewrite Nat.sub_diag. repeat split; [lia|].
    cbn [leadingLineFeeds]. rewrite E. reflexivity.
Qed.

Lemma matchAt_reNewlines (s : gostring) :
  matchAt reNewlines s =
    if (3 <=? leadingLineFeeds s)%nat
    then Some (dropWhile (chr nl) s, nocaps) else None.
Proof.
  unfold matchAt, reNewlines. cbn [run].
  rewrite (repGreedy_takes_all (chr nl) (fun t => (t, nocaps))).
  destruct (leadingLineFeeds_dropWhile s) as [-> _]. reflexivity.
Qed.

Lemma replaceFrom_skip (r : regex) (f : gostring -> caps -> gostring)
    (s : gostring) :
  forall skip : nat,
    replaceFrom r f skip s = replaceFrom r f 0 (skipn skip s).
Proof.
  induction s as [|x t IH]; intros skip.
  - destruct skip; reflexivity.
  - destruct skip as [|m]; [reflexivity|].
    cbn [replaceFrom skipn]. apply IH.
Qed.

Lemma skipn_leading (s : gostring) :
  skipn (leadingLineFeeds s) s = dropWhile (chr nl) s.
Proof.
  induction s as [|x t IH]; [reflexivity|].
  cbn [leadingLineFeeds dropWhile]. unfold chr at 1. rewrite (N.eqb_sym nl x).
  destruct (x =? nl); [exact IH | reflexivity].
Qed.

(** One step of the collapse: a run of three line feeds or more becomes two
    and the scan goes on behind the run; any other rune is copied. *)
Lemma collapseNewlines_step (x : N) (t : gostring) :
  collapseNewlines (x :: t) =
    if (3 <=? leadingLineFeeds (x :: t))%nat
    then [nl; nl] ++ collapseNewlines (dropWhile (chr nl) (x :: t))
    else x :: collapseNewlines t.
Proof.
  unfold collapseNewlines, ReplaceAllString. cbn [replaceFrom].
  rewrite matchAt_reNewlines.
  destruct (Nat.leb_spec 3 (leadingLineFeeds (x :: t))) as [Hrun|Hrun];
    [|reflexivity].
  destruct (leadingLineFeeds_dropWhile (x :: t)) as [Hlen _].
  rewrite Hlen.
  destruct (leadingLineFeeds (x :: t)) as [|m] eqn:Em; [lia|].
  cbn [expand flat_map app]. rewrite replaceFrom_skip.
  rewrite <- skipn_leading, Em. reflexivity.
Qed.

Lemma hasTripleLineFeed_cons (x : N) (t : gostring) :
  hasTripleLineFeed (x :: t) =
    (3 <=? leadingLineFeeds (x :: t))%nat || hasTripleLineFeed t.
Proof. reflexivity. Qed.

Lemma collapseNewlines_invariant (n : nat) :
  forall s : gostring,
    (length s <= n)%nat ->
    hasTripleLineFeed (collapseNewlines s) = false
    /\ (leadingLineFeeds (collapseNewlines s) <= 2)%nat
    /\ (leadingLineFeeds (collapseNewlines s) <= leadingLineFeeds s)%nat.
Proof.
  induction n as [|n IH]; intros s Hlen.
  - destruct s; [repeat split; simpl; lia | simpl in Hlen; lia].
  - destruct s as [|x t]; [repeat split; simpl; lia|].
    rewrite collapseNewlines_step.
    destruct (Nat.leb_spec 3 (leadingLineFeeds (x :: t))) as [Hrun|Hrun].
    + destruct (leadingLineFeeds_dropWhile (x :: t)) as [Hl [Hle Hzero]].
      assert (Hshort : (length (dropWhile (chr nl) (x :: t)) <= n)%nat).
      { change (length (x :: t)) with (S (length t)) in *. simpl in Hlen. lia. }
      destruct (IH _ Hshort) as [Htriple [_ Hlead]].
      rewrite Hzero in Hlead.
      set (rest := collapseNewlines (dropWhile (chr nl) (x :: t))) in *.
      assert (Hrest : leadingLineFeeds rest = 0%nat) by lia.
      set (L := leadingLineFeeds (x :: t)) in *.
      change ([nl; nl] ++ rest) with (nl :: nl :: rest).
      rewrite !hasTripleLineFeed_cons.
      cbn [leadingLineFeeds]. change (nl =? nl) with true. cbv iota.
      rewrite Hrest, Htriple. repeat split; try reflexivity; lia.
    + simpl in Hlen.
      destruct (IH t ltac:(lia)) as [Htriple [Htwo Hlead]].
      rewrite hasTripleLineFeed_cons, Htriple.
      cbn [leadingLineFeeds] in *.
      destruct (x =? nl); [|repeat split; try reflexivity; lia].
      destruct (Nat.leb_spec 3 (S (leadingLineFeeds (collapseNewlines t))));
        repeat split; try reflexivity; lia.
Qed.

Lemma no_triple_no_match (s : gostring) :
  hasTripleLineFeed s = false ->
  forall pre t, s = pre ++ t -> matchAt reNewlines t = None.
Proof.
  induction s as [|x s' IH]; intros H pre t Heq.
  - destruct pre; [|discriminate]. simpl in Heq. subst t. reflexivity.
  - rewrite hasTripleLineFeed_cons in H. apply orb_false_elim in H.
    destruct H as [Hhere Hlater].
    destruct pre as [|z pre].
    + simpl in Heq. subst t. rewrite matchAt_reNewlines, Hhere. reflexivity.
    + simpl in Heq. inversion Heq. subst z. apply (IH Hlater pre). assumption.
Qed.

(** X10. After the newline collapse no three line feeds stand in a row, and
    a text that has no such run is left as it is; so the collapse applied
    twice is the collapse applied once. *)
Theorem collapseNewlines_no_triple (markdown : gostring) :
  hasTripleLineFeed (collapseNewlines markdown) = false
  /\ (hasTripleLineFeed markdown = false -> collapseNewlines markdown = markdown)
  /\ collapseNewlines (collapseNewlines markdown) = collapseNewlines markdown.
Proof.
  assert (Hfix : forall s, hasTripleLineFeed s = false -> collapseNewlines s = s).
  { intros s Hs. unfold collapseNewlines, ReplaceAllString.
    apply replaceFrom_without_match. apply no_triple_no_match. exact Hs. }
  destruct (collapseNewlines_invariant (n := length markdown) markdown (le_n _))
    as [Hno _].
  split; [exact Hno|]. split; [apply Hfix|]. apply Hfix. exact Hno.
Qed.

Lemma collapseNewlines_no_triple_witness :
  collapseNewlines (str "a" ++ [nl; nl] ++ str "b") = str "a" ++ [nl; nl] ++ str "b".
Proof.
  exact (proj1 (proj2 (collapseNewlines_no_triple (str "a" ++ [nl; nl] ++ str "b")))
           eq_refl).
Defined.

(** ** Account ids found in the markup *)

Lemma stripPrefix_some (sub s rest : gostring) :
  stripPrefix sub s = Some rest -> s = sub ++ rest.
Proof.
  revert s. induction sub as [|x sub IH]; intros s H.
  - destruct s; inversion H; reflexivity.
  - destruct s as [|y s]; [discriminate|]. cbn [stripPrefix] in H.
    destruct (N.eqb_spec x y) as [->|_]; [|discriminate].
    rewrite (IH _ H). reflexivity.
Qed.

Lemma afterFirst_some (sub s rest : gostring) :
  afterFirst sub s = Some rest -> exists pre, s = pre ++ sub ++ rest.
Proof.
  induction s as [|x s' IH]; cbn [afterFirst]; intros H.
  - destruct (stripPrefix sub []) eqn:E; [|discriminate].
    inversion H; subst. exists []. exact (stripPrefix_some _ _ E).
  - destruct (stripPrefix sub (x :: s')) eqn:E.
    + inversion H; subst. exists []. exact (stripPrefix_some _ _ E).
    + destruct (IH H) as [pre Hpre]. exists (x :: pre). rewrite Hpre. reflexivity.
Qed.

Lemma cutAt_some (c : N) (s a b : gostring) :
  cutAt c s = Some (a, b) -> s = a ++ c :: b /\ ~ In c a.
Proof.
  revert a. induction s as [|x s' IH]; intros a H; [discriminate|].
  cbn [cutAt] in H. destruct (N.eqb_spec x c) as [->|Hne].
  - inversion H; subst. split; [reflexivity | intros []].
  - destruct (cutAt c s') as [[a' b']|]; [|discriminate].
    inversion H; subst. destruct (IH a' eq_refl) as [Hs Hin].
    split; [rewrite Hs; reflexivity|].
    intros [E|E]; [congruence | contradiction].
Qed.

Lemma extractIDsFuel_sound (html0 : gostring) (fuel : nat) :
  forall (pre0 html : gostring) (seen : list gostring),
    html0 = pre0 ++ html ->
    let good := fun id : gostring =>
      id <> [] /\ ~ In 34 id
      /\ exists pre post, html0 = pre ++ accountIdKey ++ id ++ 34 :: post in
    List.NoDup seen -> List.Forall good seen ->
    List.NoDup (extractIDsFuel fuel html seen)
    /\ List.Forall good (extractIDsFuel fuel html seen).
Proof.
  induction fuel as [|n IH]; intros pre0 html seen Hhtml good Hnd Hgood;
    cbn [extractIDsFuel]; [split; assumption|].
  destruct (afterFirst accountIdKey html) as [rest|] eqn:Ekey; [|split; assumption].
  destruct (cutAt 34 rest) as [[accountID rest']|] eqn:Ecut; [|split; assumption].
  apply afterFirst_some in Ekey. destruct Ekey as [pre Hpre].
  apply cutAt_some in Ecut. destruct Ecut as [Hrest Hquote].
  assert (Hnext : html0 = (pre0 ++ pre ++ accountIdKey ++ accountID ++ [34]) ++ rest').
  { rewrite Hhtml, Hpre, Hrest. rewrite <- !app_assoc. reflexivity. }
  destruct (eqs accountID []) eqn:Eempty; cbn [orb].
  - apply (IH _ _ _ Hnext); assumption.
  - destruct (existsb (eqs accountID) seen) eqn:Eseen.
    + apply (IH _ _ _ Hnext); assumption.
    + apply (IH _ _ _ Hnext).
      * apply List.NoDup_app.
        -- exact Hnd.
        -- constructor; [intros [] | constructor].
        -- intros x Hx [Hy|[]]. subst x.
           assert (Hex : existsb (eqs accountID) seen = true).
           { apply existsb_exists. exists accountID. split; [exact Hx|].
             apply eqs_refl. }
           congruence.
      * apply List.Forall_app. split; [exact Hgood|].
        constructor; [|constructor]. split; [|split].
        -- apply eqs_false. exact Eempty.
        -- exact Hquote.
        -- exists (pre0 ++ pre), rest'. rewrite Hhtml, Hpre, Hrest.
           rewrite <- !app_assoc. reflexivity.
Qed.

(** X11. [ExtractUserAccountIDs] returns each account id once; every id it
    returns is not empty, holds no double quote, and stands in the markup
    between the text ri:account-id= with its opening quote and a closing
    quote. *)
Theorem ExtractUserAccountIDs_sound (html : gostring) :
  List.NoDup (ExtractUserAccountIDs html)
  /\ List.Forall
       (fun id => id <> [] /\ ~ In 34 id
                  /\ exists pre post,
                       html = pre ++ accountIdKey ++ id ++ 34 :: post)
       (ExtractUserAccountIDs html).
Proof.
  unfold ExtractUserAccountIDs.
  apply (@extractIDsFuel_sound html (length html) [] html []).
  - reflexivity.
  - constructor.
  - constructor.
Qed.

(** The fuel of [ExtractUserAccountIDs] is enough: every round reads past
    one attribute, so more fuel changes nothing. *)
Lemma extractIDsFuel_enough (fuel1 : nat) :
  forall (fuel2 : nat) (html : gostring) (seen : list gostring),
    (length html <= fuel1)%nat -> (length html <= fuel2)%nat ->
    extractIDsFuel fuel1 html seen = extractIDsFuel fuel2 html seen.
Proof.
  assert (Hdone : forall fuel seen, extractIDsFuel fuel [] seen = seen).
  { intros [|fuel] seen; reflexivity. }
  induction fuel1 as [|n IH]; intros fuel2 html seen H1 H2.
  - destruct html; [|simpl in H1; lia]. rewrite !Hdone. reflexivity.
  - destruct fuel2 as [|m].
    + destruct html; [|simpl in H2; lia]. rewrite !Hdone. reflexivity.
    + cbn [extractIDsFuel].
      destruct (afterFirst accountIdKey html) as [rest|] eqn:Ekey; [|reflexivity].
      destruct (cutAt 34 rest) as [[accountID rest']|] eqn:Ecut; [|reflexivity].
      apply afterFirst_some in Ekey. destruct Ekey as [pre Hpre].
      apply cutAt_some in Ecut. destruct Ecut as [Hrest _].
      assert (Hshort : (length rest' < length html)%nat).
      { rewrite Hpre, Hrest. rewrite !length_app. simpl. lia. }
      apply IH; lia.
Qed.

(** ** The user cache *)

Lemma cacheUsers_keeps (c : Client) (ids : list gostring) :
  forall (cache : gmap (list N) (list N)) (k v : gostring),
    cache !! k = Some v -> cacheUsers c ids cache !! k = Some v.
Proof.
  induction ids as [|accountID rest IH]; intros cache k v H; [exact H|].
  cbn [cacheUsers].
  destruct (cache !! accountID) eqn:Ehit; [apply IH; exact H|].
  assert (Hne : accountID <> k) by (intros ->; congruence).
  destruct (c accountID) as [user|]; [|apply IH; exact H].
  destruct (eqs (cu_DisplayName user) []); cbn [negb].
  - destruct (eqs (cu_PublicName user) []); cbn [negb]; apply IH;
      [exact H | rewrite lookup_insert_ne by exact Hne; exact H].
  - apply IH. rewrite lookup_insert_ne by exact Hne. exact H.
Qed.

Lemma extractAndCacheUsers_keeps (p : ConfluencePlugin) (page : ConfluencePage)
    (k v : gostring) :
  userCache p !! k = Some v ->
  userCache (extractAndCacheUsers p page) !! k = Some v.
Proof.
  intros H. unfold extractAndCacheUsers.
  destruct (client p); [|exact H]. cbn [withCache userCache].
  apply cacheUsers_keeps. exact H.
Qed.

Lemma cacheUser_lookup (u : User) (cache : gmap (list N) (list N)) (k : gostring) :
  cacheUser u cache !! k =
    if negb (eqs (AccountID u) []) && negb (eqs (DisplayName u) [])
       && eqs (AccountID u) k
    then Some (DisplayName u) else cache !! k.
Proof.
  unfold cacheUser.
  destruct (negb (eqs (AccountID u) []) && negb (eqs (DisplayName u) []));
    cbn [andb]; [|reflexivity].
  destruct (eqs (AccountID u) k) eqn:E.
  - apply eqs_true in E. subst k. apply lookup_insert_eq.
  - apply eqs_false in E. apply lookup_insert_ne. exact E.
Qed.

(** X12. After [SetCurrentPage] the cache maps the account id of the page's
    last editor to the editor's display name, and the id of its creator to
    the creator's name unless the editor has the same id (both when id and
    name are not empty); a mention of the editor is then rendered with the
    name. *)
Theorem SetCurrentPage_seeds_cache (ext : External) (p : ConfluencePlugin)
    (page : ConfluencePage) :
  (AccountID (UpdatedBy page) <> [] -> DisplayName (UpdatedBy page) <> [] ->
   userCache (SetCurrentPage p page) !! AccountID (UpdatedBy page)
   = Some (DisplayName (UpdatedBy page)))
  /\ (AccountID (CreatedBy page) <> [] -> DisplayName (CreatedBy page) <> [] ->
      AccountID (CreatedBy page) <> AccountID (UpdatedBy page) ->
      userCache (SetCurrentPage p page) !! AccountID (CreatedBy page)
      = Some (DisplayName (CreatedBy page)))
  /\ (forall n : Node,
        AccountID (UpdatedBy page) <> [] -> DisplayName (UpdatedBy page) <> [] ->
        snd (handleAnchorLink ext n) = RenderTryNext ->
        mentionedAccount (Children n) = Some (AccountID (UpdatedBy page)) ->
        handleLink ext (SetCurrentPage p page) n
        = (str " @" ++ DisplayName (UpdatedBy page) ++ str " ", RenderTryNext)).
Proof.
  assert (Heditor : AccountID (UpdatedBy page) <> [] ->
                    DisplayName (UpdatedBy page) <> [] ->
                    userCache (SetCurrentPage p page) !! AccountID (UpdatedBy page)
                    = Some (DisplayName (UpdatedBy page))).
  { intros Hid Hname. unfold SetCurrentPage.
    apply extractAndCacheUsers_keeps. cbn [userCache].
    rewrite cacheUser_lookup.
    apply eqs_false in Hid, Hname. rewrite Hid, Hname, eqs_refl. reflexivity. }
  split; [exact Heditor|]. split.
  - intros Hid Hname Hne. unfold SetCurrentPage.
    apply extractAndCacheUsers_keeps. cbn [userCache].
    rewrite !cacheUser_lookup.
    apply eqs_false in Hid, Hname. rewrite Hid, Hname, eqs_refl.
    assert (E : eqs (AccountID (UpdatedBy page)) (AccountID (CreatedBy page)) = false)
      by (apply eqs_false; congruence).
    rewrite E, andb_false_r. reflexivity.
  - intros n Hid Hname Hanchor Hmention.
    unfold handleLink.
    destruct (handleAnchorLink ext n) as [out status] eqn:Ea.
    cbn [snd] in Hanchor. subst status.
    assert (Hout : out = []).
    { revert Ea. unfold handleAnchorLink.
      destruct (gqLinkAnchor ext n); [|intros E; inversion E; reflexivity].
      destruct (eqs (TrimSpace (gqLinkBody ext n)) []); intros E; inversion E.
      reflexivity. }
    subst out. rewrite Hmention, (Heditor Hid Hname). reflexivity.
Qed.

Lemma SetCurrentPage_seeds_cache_witness :
  userCache (SetCurrentPage Sample.plainPlugin Sample.pageGood) !! str "u1"
  = Some (str "Ann").
Proof.
  apply (proj1 (proj2 (SetCurrentPage_seeds_cache Sample.plainExternal
                         Sample.plainPlugin Sample.pageGood)));
    discriminate.
Defined.

(** X13. [SetCurrentPage] never removes an entry from the cache, and it
    changes the name kept for an id only if that id is the page's creator
    or last editor: look-ups made through the client fill ids that are
    missing and leave the others alone. The image folder, the client and
    the base URL stay as they are. *)
Theorem SetCurrentPage_keeps_entries (p : ConfluencePlugin) (page : ConfluencePage)
    (k v : gostring) :
  userCache p !! k = Some v ->
  is_Some (userCache (SetCurrentPage p page) !! k)
  /\ (k <> AccountID (CreatedBy page) -> k <> AccountID (UpdatedBy page) ->
      userCache (SetCurrentPage p page) !! k = Some v)
  /\ imageFolder (SetCurrentPage p page) = imageFolder p
  /\ client (SetCurrentPage p page) = client p
  /\ baseURL (SetCurrentPage p page) = baseURL p
  /\ currentPage (SetCurrentPage p page) = Some page.
Proof.
  intros H.
  assert (Hseed : exists w,
            cacheUser (UpdatedBy page) (cacheUser (CreatedBy page) (userCache p)) !! k
            = Some w
            /\ (k <> AccountID (CreatedBy page) -> k <> AccountID (UpdatedBy page) ->
                w = v)).
  { rewrite !cacheUser_lookup, H.
    destruct (eqs (AccountID (UpdatedBy page)) k) eqn:Eu;
      destruct (eqs (AccountID (CreatedBy page)) k) eqn:Ec;
      rewrite ?andb_false_r, ?andb_true_r;
      try apply eqs_true in Eu; try apply eqs_true in Ec;
      repeat match goal with
      | |- context [if ?b then _ else _] => destruct b
      end;
      eexists; (split; [reflexivity | intros; congruence]). }
  destruct Hseed as [w [Hw Hsame]].
  assert (Hfields : forall q : ConfluencePlugin,
            imageFolder (extractAndCacheUsers q page) = imageFolder q
            /\ client (extractAndCacheUsers q page) = client q
            /\ baseURL (extractAndCacheUsers q page) = baseURL q
            /\ currentPage (extractAndCacheUsers q page) = currentPage q).
  { intros q. unfold extractAndCacheUsers. destruct (client q) eqn:E;
      cbn; rewrite ?E; repeat split; reflexivity. }
  unfold SetCurrentPage.
  match goal with
  | |- context [extractAndCacheUsers ?q page] =>
      destruct (Hfields q) as [F1 [F2 [F3 F4]]];
      pose proof (@extractAndCacheUsers_keeps q page k w Hw) as Hkeep
  end.
  split; [rewrite Hkeep; eexists; reflexivity|].
  split; [intros N1 N2; rewrite Hkeep, (Hsame N1 N2); reflexivity|].
  repeat split; assumption.
Qed.

Lemma SetCurrentPage_keeps_entries_witness :
  userCache (SetCurrentPage (withCache Sample.plainPlugin
                               (<[str "u9" := str "Zed"]> ∅)) Sample.pageGood)
    !! str "u9"
  = Some (str "Zed").
Proof.
  apply (proj1 (proj2 (@SetCurrentPage_keeps_entries
                         (withCache Sample.plainPlugin
                            (<[str "u9" := str "Zed"]> ∅))
                         Sample.pageGood (str "u9") (str "Zed")
                         (lookup_insert_eq _ _ _)))); discriminate.
Defined.

(** ** Validation reports the first fault *)

Section MoreValidation.
Variable urlParseError : gostring -> option error.

Lemma validateAttachments_first (good : list ConfluenceAttachment)
    (bad : ConfluenceAttachment) (rest : list ConfluenceAttachment) (err : error) :
  forall i : nat,
    List.Forall (fun a => Attachment_Validate urlParseError a = None) good ->
    Attachment_Validate urlParseError bad = Some err ->
    validateAttachments urlParseError i (good ++ bad :: rest)
    = Some (str "invalid attachment at index " ++ itoa (i + length good)
              ++ str ": " ++ err).
Proof.
  induction good as [|a good IH]; intros i Hgood Hbad.
  - cbn [app validateAttachments length]. rewrite Hbad, Nat.add_0_r. reflexivity.
  - inversion Hgood as [|? ? Ha Hrest]; subst.
    cbn [app validateAttachments length]. rewrite Ha.
    rewrite (IH (S i) Hrest Hbad). rewrite Nat.add_succ_r. reflexivity.
Qed.

(** X14. The checks of [Validate] run in a fixed order and stop at the
    first fault: an empty identifier is reported whatever else is wrong,
    and when the four fields are present the error names the index of the
    first invalid attachment and gives that attachment's own error. *)
Theorem Validate_reports_first_fault (cp : ConfluencePage) :
  (ID cp = [] -> Validate urlParseError cp = Some (str "page ID cannot be empty"))
  /\ (forall good bad rest err,
        ID cp <> [] -> Title cp <> [] -> StorageValue cp <> [] -> SpaceKey cp <> [] ->
        Attachments cp = good ++ bad :: rest ->
        List.Forall (fun a => Attachment_Validate urlParseError a = None) good ->
        Attachment_Validate urlParseError bad = Some err ->
        Validate urlParseError cp
        = Some (str "invalid attachment at index " ++ itoa (length good)
                  ++ str ": " ++ err))
  /\ (forall ca, (FileSize ca <= 0)%Z -> att_ID ca <> [] -> att_Title ca <> [] ->
        MediaType ca <> [] ->
        Attachment_Validate urlParseError ca
        = Some (str "attachment file size must be greater than 0")).
Proof.
  split; [|split].
  - intros H. unfold Validate. rewrite H. reflexivity.
  - intros good bad rest err H1 H2 H3 H4 Hatt Hgood Hbad.
    unfold Validate. apply eqs_false in H1, H2, H3, H4.
    rewrite H1, H2, H3, H4, Hatt.
    apply (@validateAttachments_first good bad rest err 0 Hgood Hbad).
  - intros ca Hsize H1 H2 H3. unfold Attachment_Validate.
    apply eqs_false in H1, H2, H3. rewrite H1, H2, H3.
    apply Z.leb_le in Hsize. rewrite Hsize. reflexivity.
Qed.

End MoreValidation.

Lemma Validate_reports_first_fault_witness :
  Validate (fun _ => None) Sample.pageNoId = Some (str "page ID cannot be empty")
  /\ Validate (fun _ => None) Sample.pageBadAttachment
     = Some (str "invalid attachment at index 1: attachment file size must be greater than 0").
Proof.
  split.
  - exact (proj1 (Validate_reports_first_fault (fun _ => None) Sample.pageNoId)
             eq_refl).
  - refine (eq_trans
      (proj1 (proj2 (Validate_reports_first_fault (fun _ => None)
                       Sample.pageBadAttachment))
         [Sample.attachmentGood] Sample.attachmentEmpty []
         (str "attachment file size must be greater than 0")
         _ _ _ _ eq_refl _ _) eq_refl); try discriminate.
    + constructor; [reflexivity | constructor].
    + apply (proj2 (proj2 (Validate_reports_first_fault (fun _ => None)
                             Sample.pageBadAttachment)));
        [vm_compute | | | ]; discriminate.
Defined.

(** ** Image references and their download *)

Section Images.
Variable ext : External.
Variable lib : Library.

Lemma TrimSuffix1_slash (b : gostring) :
  (forall y, b <> y ++ [47]) ->
  TrimSuffix1 (b ++ [47]) 47 = b /\ TrimSuffix1 b 47 = b.
Proof.
  intros H. unfold TrimSuffix1. split.
  - rewrite rev_app_distr. cbn [rev app]. rewrite N.eqb_refl.
    apply rev_involutive.
  - destruct (rev b) as [|x t] eqn:E; [reflexivity|].
    destruct (N.eqb_spec x 47) as [->|_]; [|reflexivity].
    exfalso. apply (H (rev t)).
    rewrite <- (rev_involutive b), E. reflexivity.
Qed.

Lemma imageRefsOf_shape (pageID baseURL : gostring) (ms : list gostring) :
  List.Forall
    (fun ref =>
       FileName ref <> []
       /\ In (FileName ref) (map (ParseConfluenceImage ext) ms)
       /\ OriginalURL ref =
            TrimSuffix1 baseURL 47 ++ str "/download/attachments/" ++ pageID
              ++ str "/" ++ QueryEscape lib (FileName ref)
       /\ ContentType ref = [] /\ Size ref = 0%Z)
    (imageRefsOf ext lib ms pageID baseURL)
  /\ map FileName (imageRefsOf ext lib ms pageID baseURL)
     = List.filter (fun f => negb (eqs f [])) (map (ParseConfluenceImage ext) ms).
Proof.
  induction ms as [|m rest [IH1 IH2]]; [split; [constructor | reflexivity]|].
  cbn [imageRefsOf map List.filter].
  destruct (eqs (ParseConfluenceImage ext m) []) eqn:E; cbn [negb].
  - split; [|exact IH2]. eapply List.Forall_impl; [|exact IH1].
    intros ref [H1 [H2 H3]]. split; [exact H1|]. split; [right; exact H2 | exact H3].
  - split.
    + constructor.
      * cbn. apply eqs_false in E. repeat split; [exact E | left; reflexivity].
      * eapply List.Forall_impl; [|exact IH1].
        intros ref [H1 [H2 H3]]. split; [exact H1|].
        split; [right; exact H2 | exact H3].
    + cbn [map FileName]. rewrite IH2. reflexivity.
Qed.

(** X15. Every image reference that [extractImageReferences] returns has a
    non-empty file name, taken from one of the attachment tags found in the
    markup, an empty content type and size, and the URL built from the base
    URL without its final slash, the page id and the escaped name; matches
    without a file name are dropped, the others keep their order and are
    not deduplicated. A final slash on the base URL makes no difference. *)
Theorem extractImageReferences_shape (html pageID baseURL : gostring) :
  List.Forall
    (fun ref =>
       FileName ref <> []
       /\ In (FileName ref)
            (map (ParseConfluenceImage ext) (FindAllString reAttachment html))
       /\ OriginalURL ref =
            TrimSuffix1 baseURL 47 ++ str "/download/attachments/" ++ pageID
              ++ str "/" ++ QueryEscape lib (FileName ref)
       /\ ContentType ref = [] /\ Size ref = 0%Z)
    (extractImageReferences ext lib html pageID baseURL)
  /\ map FileName (extractImageReferences ext lib html pageID baseURL)
     = List.filter (fun f => negb (eqs f []))
         (map (ParseConfluenceImage ext) (FindAllString reAttachment html))
  /\ ((forall y, baseURL <> y ++ [47]) ->
      extractImageReferences ext lib html pageID (baseURL ++ [47])
      = extractImageReferences ext lib html pageID baseURL).
Proof.
  unfold extractImageReferences.
  destruct (imageRefsOf_shape pageID baseURL (FindAllString reAttachment html))
    as [H1 H2].
  split; [exact H1|]. split; [exact H2|].
  intros Hslash. destruct (TrimSuffix1_slash Hslash) as [T1 T2].
  induction (FindAllString reAttachment html) as [|m rest IH]; [reflexivity|].
  cbn [imageRefsOf]. rewrite T1, T2.
  destruct (eqs (ParseConfluenceImage ext m) []); [|f_equal]; apply IH;
    apply imageRefsOf_shape.
Qed.

Lemma downloadEach_success (c : Converter) (r : Resolver) (page : ConfluencePage)
    (outputDir : gostring) (images : list ImageRef) :
  forall done : list ImageRef,
    downloadEach lib c r page outputDir images = inr done ->
    map FileName done = map FileName images
    /\ map OriginalURL done = map OriginalURL images
    /\ List.Forall
         (fun im => (Size im <= maxImageSizeBytes)%Z
                    /\ exists attachment data,
                         r page (FileName im) = inr (attachment, data)
                         /\ ContentType im = MediaType attachment
                         /\ Size im = FileSize attachment
                         /\ WriteFile lib
                              (filepathJoin lib outputDir (conv_imageFolder c)
                                 (FileName im)) data = None)
         done.
Proof.
  induction images as [|im rest IH]; intros done H.
  - inversion H. repeat split; constructor.
  - cbn [downloadEach] in H.
    destruct (r page (FileName im)) as [e|[attachment data]] eqn:Er; [discriminate|].
    destruct (Z.ltb_spec maxImageSizeBytes (FileSize attachment)) as [Hbig|Hok];
      [discriminate|].
    destruct (MkdirAll lib _); [discriminate|].
    destruct (WriteFile lib _ data) eqn:Ew; [discriminate|].
    destruct (downloadEach lib c r page outputDir rest) as [e|done']; [discriminate|].
    inversion H; subst done. destruct (IH done' eq_refl) as [H1 [H2 H3]].
    cbn [map FileName OriginalURL]. rewrite H1, H2.
    repeat split; try reflexivity.
    constructor; [|exact H3]. cbn. split; [exact Hok|].
    exists attachment, data. repeat split; assumption.
Qed.

Lemma downloadImages_keeps (c : Converter) (r : Resolver)
    (doc doc' : MarkdownDocument) (page : ConfluencePage) (outputDir : gostring) :
  downloadImages lib c r doc page outputDir = inr doc' ->
  PageID doc' = PageID doc /\ Content doc' = Content doc
  /\ map FileName (Images doc') = map FileName (Images doc).
Proof.
  unfold downloadImages.
  destruct (downloadEach lib c r page outputDir (Images doc)) as [e|done] eqn:E;
    [discriminate|].
  intros H. inversion H; subst doc'. cbn [PageID Content Images].
  destruct (downloadEach_success _ _ _ _ _ E) as [H1 _].
  repeat split; assumption.
Qed.


End Images.

Lemma extractImageReferences_shape_witness :
  extractImageReferences Sample.plainExternal Sample.plainLibrary
    (str "<ri:attachment ri:filename=" ++ [34] ++ str "a.png" ++ [34] ++ str "/>")
    (str "42") (str "https://wiki/")
  = extractImageReferences Sample.plainExternal Sample.plainLibrary
      (str "<ri:attachment ri:filename=" ++ [34] ++ str "a.png" ++ [34] ++ str "/>")
      (str "42") (str "https://wiki").
Proof.
  apply (proj2 (proj2 (extractImageReferences_shape Sample.plainExternal
                         Sample.plainLibrary _ (str "42") (str "https://wiki")))).
  intros y H. apply (f_equal (@rev N)) in H. rewrite rev_app_distr in H.
  vm_compute in H. discriminate.
Defined.


(** ** A converted page *)

(** X17. When [ConvertPage] returns a document, the page has passed
    validation; the conversion ran with the plugin updated for this page
    (user cache seeded, base URL set), and the converter keeps that plugin;
    the content of the document is the post-processed output of the library
    for the CDATA-prepared markup, so it has no white space at either end;
    and its images are, by name and in order, the references found in the
    markup. *)
Theorem ConvertPage_success (ext : External) (lib : Library) (c : Converter)
    (page : ConfluencePage) (baseURL outputDir : gostring) (doc : MarkdownDocument) :
  fst (ConvertPage ext lib c page baseURL outputDir) = inr doc ->
  let plugin' := SetBaseURL (SetCurrentPage (plugin c) page) baseURL in
  Validate (urlParseError lib) page = None
  /\ plugin (snd (ConvertPage ext lib c page baseURL outputDir)) = plugin'
  /\ attachments (snd (ConvertPage ext lib c page baseURL outputDir)) = attachments c
  /\ Content doc =
       postprocessMarkdown
         (fst (ConvertString lib plugin' (preprocessCDATA (StorageValue page))))
  /\ TrimSpace (Content doc) = Content doc
  /\ map FileName (Images doc) =
       map FileName
         (extractImageReferences ext lib (StorageValue page) (PageID doc) baseURL).
Proof.
  unfold ConvertPage.
  destruct (Validate (urlParseError lib) page); [discriminate|].
  destruct (NewMarkdownDocument lib page baseURL) as [e|doc0]; [discriminate|].
  unfold convertHtml. cbn [plugin attachments].
  destruct (ConvertString lib _ _) as [md cerr] eqn:Emd.
  destruct (attachments c) as [r|].
  - destruct (downloadImages lib _ r _ page outputDir) as [e|doc1] eqn:Ed;
      [discriminate|].
    intros H. inversion H; subst doc1. clear H. cbv zeta.
    destruct (@downloadImages_keeps lib _ r _ doc page outputDir Ed)
      as [Hid [Hcontent Hnames]].
    cbn [PageID Content Images] in Hid, Hcontent, Hnames.
    cbn [snd plugin attachments fst].
    repeat split; try reflexivity.
    + exact Hcontent.
    + rewrite Hcontent. unfold postprocessMarkdown. apply TrimSpace_idempotent.
    + rewrite Hnames, Hid. reflexivity.
  - intros H. inversion H; subst doc. clear H. cbv zeta.
    cbn [snd plugin attachments fst PageID Content Images].
    repeat split; try reflexivity.
    unfold postprocessMarkdown. apply TrimSpace_idempotent.
Qed.

Lemma ConvertPage_success_witness :
  Content {| PageID := str "42"; Content := str "<p>hello</p>"; Images := [] |}
  = postprocessMarkdown (str "<p>hello</p>").
Proof.
  exact (proj1 (proj2 (proj2 (proj2
           (@ConvertPage_success Sample.plainExternal Sample.plainLibrary
              Sample.plainConverter Sample.pageGood (str "https://wiki") (str "out")
              {| PageID := str "42"; Content := str "<p>hello</p>"; Images := [] |}
              eq_refl))))).
Defined.

(** ** Flattened lists *)

Section FlattenedLists.
Variable ext : External.
Variable p : ConfluencePlugin.

(** The list loop of [flattenListContentWithDepth], by index. *)
Lemma flattenListContentWithDepth_loop (tag : gostring) (a : list Attribute)
    (cs : list Node) (ordered : bool) (depth : nat) :
  flattenListContentWithDepth ext p (ElementNode tag a cs) ordered depth
  = str "<br>" ++ listEntriesFrom ext p ordered depth cs 1.
Proof. reflexivity. Qed.

Lemma bullets_ignore_index (depth : nat) (lis : list Node) :
  forall i j : nat,
    flat_map (fun entry : nat * Node =>
                Repeat (str "&nbsp;&nbsp;") depth ++ bulletMark
                ++ flattenListItemContent ext p (snd entry) depth ++ str "<br>")
             (combine (seq i (length lis)) lis)
    = flat_map (fun entry : nat * Node =>
                Repeat (str "&nbsp;&nbsp;") depth ++ bulletMark
                ++ flattenListItemContent ext p (snd entry) depth ++ str "<br>")
             (combine (seq j (length lis)) lis).
Proof.
  induction lis as [|li lis IH]; intros i j; [reflexivity|].
  cbn [length seq combine flat_map snd]. rewrite (IH (S i) (S j)). reflexivity.
Qed.

(** X18. A flattened list is a line-break token followed by one entry per
    li child, in order; children that are not li elements are passed over
    and take no number. In an ordered list the k-th li is numbered k; in an
    unordered one every entry has the bullet. Each entry is indented by
    two non-breaking-space entities per nesting level and closed by a
    line-break token. *)
Theorem flattened_list_entries (tag : gostring) (a : list Attribute)
    (cs : list Node) (ordered : bool) (depth : nat) :
  flattenListContentWithDepth ext p (ElementNode tag a cs) ordered depth =
    str "<br>" ++
    flat_map (fun entry : nat * Node =>
                Repeat (str "&nbsp;&nbsp;") depth
                ++ (if ordered then itoa (fst entry) ++ str ". " else bulletMark)
                ++ flattenListItemContent ext p (snd entry) depth
                ++ str "<br>")
             (listItems cs).
Proof.
  rewrite flattenListContentWithDepth_loop. f_equal. unfold listItems.
  generalize 1%nat as index.
  induction cs as [|c rest IH]; intros index; [reflexivity|].
  cbn [listEntriesFrom List.filter].
  destruct (isElement "li" c) eqn:Eli; [|apply IH].
  cbn [length seq combine flat_map fst snd].
  destruct ordered.
  - rewrite (IH (S index)). rewrite <- ?app_assoc. reflexivity.
  - rewrite (IH index). rewrite <- ?app_assoc.
    rewrite (bullets_ignore_index depth _ index (S index)). reflexivity.
Qed.

End FlattenedLists.

(** ** The normalizer never lengthens a text *)

Lemma replaceFrom_never_longer (r : regex) (f : gostring -> caps -> gostring)
    (s : gostring) :
  (forall s rest c, matchAt r s = Some (rest, c) ->
     (length (f (firstn (length s - length rest) s) c)
      < length s - length rest)%nat) ->
  (length (replaceFrom r f 0 s) <= length s)%nat.
Proof.
  intros Hshrinks.
  destruct (@replaceFrom_length r f Hshrinks s 0%nat ltac:(lia)) as [H _]. lia.
Qed.

Lemma reConfLink_shrinks (s rest : gostring) (c : caps) :
  matchAt reConfLink s = Some (rest, c) ->
  (length (expand [TLit (str "["); TRef 1; TLit (str "](confluence://pageId/");
                   TRef 3; TLit (str ")")] c)
   < length s - length rest)%nat.
Proof.
  unfold matchAt, reConfLink. cbn [rseq]. intros H.
  rewrite run_seq in H. apply run_sound in H; [|reflexivity].
  destruct H as [m1 [t1 [E1 [L1 H]]]].
  rewrite run_seq in H. apply run_group_sound in H; [|reflexivity].
  destruct H as [g1 [t2 [E2 [_ H]]]].
  rewrite run_seq in H. apply run_sound in H; [|reflexivity].
  destruct H as [m2 [t3 [E3 [L2 H]]]].
  rewrite run_seq in H. apply run_sound in H; [|reflexivity].
  destruct H as [m3 [t4 [E4 [L3 H]]]].
  rewrite run_seq in H. apply run_group_sound in H; [|reflexivity].
  destruct H as [g2 [t5 [E5 [L4 H]]]].
  rewrite run_seq in H. apply run_sound in H; [|reflexivity].
  destruct H as [m4 [t6 [E6 [L5 H]]]].
  rewrite run_seq in H. apply run_group_sound in H; [|reflexivity].
  destruct H as [g3 [t7 [E7 [_ H]]]].
  rewrite run_seq in H. apply run_sound in H; [|reflexivity].
  destruct H as [m5 [t8 [E8 [L6 H]]]].
  rewrite run_seq in H. apply run_sound in H; [|reflexivity].
  destruct H as [m6 [t9 [E9 [L7 H]]]].
  apply run_sound in H; [|reflexivity].
  destruct H as [m7 [t10 [E10 [L8 H]]]].
  inversion H; subst rest c. clear H.
  repeat match goal with
         | L : (?m <= length _)%nat |- _ =>
             lazymatch m with
             | context [minLen] =>
                 let v := eval vm_compute in m in change m with v in L
             end
         end.
  unfold expand. cbn [flat_map]. unfold setcap. cbn [Nat.eqb].
  subst s t1 t2 t3 t4 t5 t6 t7 t8 t9.
  rewrite !length_app.
  change (length (str "[")) with 1%nat.
  change (length (str "](confluence://pageId/")) with 22%nat.
  change (length (str ")")) with 1%nat. cbn [length]. lia.
Qed.

Lemma dropWhile_length (q : N -> bool) (s : gostring) :
  (length (dropWhile q s) <= length s)%nat.
Proof.
  induction s as [|x t IH]; simpl; [lia|]. destruct (q x); simpl; lia.
Qed.

Lemma TrimSpace_length (s : gostring) : (length (TrimSpace s) <= length s)%nat.
Proof.
  unfold TrimSpace, trimRightFunc, trimLeftFunc. rewrite length_rev.
  pose proof (dropWhile_length isSpace (rev (dropWhile isSpace s))) as H1.
  rewrite length_rev in H1.
  pose proof (dropWhile_length isSpace s). lia.
Qed.

Lemma fixNestedListSpacingFuel_length (fuel : nat) :
  forall markdown : gostring,
    (length (fixNestedListSpacingFuel fuel markdown) <= length markdown)%nat.
Proof.
  induction fuel as [|n IH]; intros markdown; cbn [fixNestedListSpacingFuel];
    destruct (nestedListPass_shrinks markdown) as [Heq|Hlt];
    destruct (negb (eqs (nestedListPass markdown) markdown));
    rewrite ?Heq; try lia.
  - specialize (IH markdown). lia.
  - specialize (IH (nestedListPass markdown)). lia.
Qed.

(** X19. No pass of the normalizer adds to the text: the newline collapse,
    the nested-list fix, the link rewrite and the trim each return a text
    no longer than the one they are given, and so does
    [postprocessMarkdown]. *)
Theorem postprocessMarkdown_never_longer (markdown : gostring) :
  (length (collapseNewlines markdown) <= length markdown)%nat
  /\ (length (fixNestedListSpacing markdown) <= length markdown)%nat
  /\ (length (fixMarkdownLinks markdown) <= length markdown)%nat
  /\ (length (postprocessMarkdown markdown) <= length markdown)%nat.
Proof.
  assert (H1 : forall s, (length (collapseNewlines s) <= length s)%nat).
  { intros s. unfold collapseNewlines, ReplaceAllString.
    apply replaceFrom_never_longer. intros t rest c Hm.
    rewrite matchAt_reNewlines in Hm.
    destruct (Nat.leb_spec 3 (leadingLineFeeds t)) as [Hrun|_]; [|discriminate].
    inversion Hm; subst rest c.
    destruct (leadingLineFeeds_dropWhile t) as [-> _]. cbn. lia. }
  assert (H2 : forall s, (length (fixNestedListSpacing s) <= length s)%nat).
  { intros s. apply fixNestedListSpacingFuel_length. }
  assert (H3 : forall s, (length (fixMarkdownLinks s) <= length s)%nat).
  { intros s. unfold fixMarkdownLinks, ReplaceAllString.
    apply replaceFrom_never_longer. intros t rest c Hm.
    apply reConfLink_shrinks. exact Hm. }
  repeat split; try auto.
  unfold postprocessMarkdown.
  pose proof (TrimSpace_length
                (fixMarkdownLinks (fixNestedListSpacing (collapseNewlines markdown)))).
  pose proof (H3 (fixNestedListSpacing (collapseNewlines markdown))).
  pose proof (H2 (collapseNewlines markdown)).
  pose proof (H1 markdown). lia.
Qed.

(** ** The rich-text body of a macro *)

Lemma Node_nested_ind (P : Node -> Prop) :
  (forall d, P (TextNode d)) ->
  (forall d, P (CommentNode d)) ->
  (forall d a cs, List.Forall P cs -> P (ElementNode d a cs)) ->
  forall n, P n.
Proof.
  intros HT HC HE. fix IH 1. intros [d|d a cs|d]; [apply HT| |apply HC].
  apply HE. induction cs as [|c r IHr]; constructor; [apply IH | exact IHr].
Qed.

Lemma findRichTextBodyNode_search (n : Node) :
  match findRichTextBodyNode n with
  | Some found =>
      isElement "ac:rich-text-body" found = true
      /\ containsTag ["ac:rich-text-body"%string] n = true
  | None => containsTag ["ac:rich-text-body"%string] n = false
  end.
Proof.
  induction n as [d|d|d a cs IH] using Node_nested_ind; try reflexivity.
  cbn [findRichTextBodyNode containsTag]. unfold tagIn. cbn [existsb].
  rewrite orb_false_r.
  destruct (eqs d (str "ac:rich-text-body")) eqn:E.
  - split; [cbn [isElement]; exact E | reflexivity].
  - cbn [orb]. induction IH as [|c r Hc _ IHr]; [reflexivity|].
    destruct (findRichTextBodyNode c) as [found|].
    + destruct Hc as [Hfound Hin]. rewrite Hin. split; [exact Hfound | reflexivity].
    + rewrite Hc. cbn [orb]. exact IHr.
Qed.

(** X20. [findRichTextBodyNode] returns nothing exactly when the node has no
    ac:rich-text-body element at any depth (itself included), and whatever
    it returns is an ac:rich-text-body element. *)
Theorem findRichTextBodyNode_finds (n : Node) :
  (findRichTextBodyNode n = None
   <-> containsTag ["ac:rich-text-body"%string] n = false)
  /\ match findRichTextBodyNode n with
     | Some found => isElement "ac:rich-text-body" found = true
     | None => True
     end.
Proof.
  pose proof (findRichTextBodyNode_search n) as H.
  destruct (findRichTextBodyNode n) as [found|].
  - destruct H as [Hfound Hin]. split; [split; congruence | exact Hfound].
  - split; [split; congruence | exact I].
Qed.

Section RichTextBody.
Variable ext : External.

(** X21. A macro with no ac:rich-text-body element anywhere inside it has
    an empty body: the expand and details macros render as nothing, and an
    admonition renders as its header line alone. *)
Theorem macro_without_rich_body (n : Node) (emoji : gostring) (label : string) :
  containsTag ["ac:rich-text-body"%string] n = false ->
  convertNestedHTML ext n = []
  /\ handleExpandMacro ext n = []
  /\ handleDetailsMacro ext n = []
  /\ handleBlockquoteMacro ext n emoji label =
       str "> " ++ emoji ++ str " **" ++ str label ++ str ":**".
Proof.
  intros Hnone.
  assert (Hbody : convertNestedHTML ext n = []).
  { unfold convertNestedHTML. pose proof (findRichTextBodyNode_search n) as H.
    destruct (findRichTextBodyNode n) as [found|]; [|reflexivity].
    destruct H as [_ H]. congruence. }
  unfold handleExpandMacro, handleDetailsMacro, handleBlockquoteMacro.
  rewrite Hbody. repeat split.
Qed.

End RichTextBody.

Lemma macro_without_rich_body_witness :
  handleBlockquoteMacro Sample.plainExternal Sample.macroFoo emojiInfo "Info"
  = str "> " ++ emojiInfo ++ str " **Info:**".
Proof.
  apply (macro_without_rich_body Sample.plainExternal
           Sample.macroFoo emojiInfo "Info" eq_refl).
Defined.
